(** * jsonpath-extract: the result formatter, the extension glue and the
    query engine's contract

    A shallow embedding of the TypeScript sources

    - [ResultFormatter] (format, convertResultToString),
    - [JsonPathExtension] (run, runSavedQuery, handleError, getJsonObject),

    together with the parts of the JavaScript runtime they call
    (JSON.stringify, JSON.parse, lodash's map and join), the formatter as
    it runs on the heap with a bounded call stack, and a model of the query
    engine, whose file is not among the sources. *)

From Stdlib Require Import ZArith List String Ascii Bool Lia.
From Stdlib Require Import DecimalString DecimalFacts DecimalPos DecimalZ.
From Equations Require Import Equations.
From ITree Require Import ITree ITreeFacts.
Import ListNotations.

Set Warnings "-register-all".

Local Open Scope list_scope.
Local Open Scope string_scope.

(** ** Characters and strings

    A JavaScript string is a sequence of UTF-16 code units.  The embedding
    carries the code units below 256 ([ascii]); nothing in the formatter
    looks at surrogates except JSON.stringify's escape of lone ones, which
    cannot occur below 256. *)

Module Chars.

Definition dquote : ascii := "034"%char.
Definition backslash : ascii := "092"%char.
Definition newline : ascii := "010"%char.
Definition space : ascii := " "%char.

Definition nl : string := String newline "".
Definition quote : string := String dquote "".

(** [spaces n] is the string of [n] spaces. *)
Fixpoint spaces (n : nat) : string :=
  match n with
  | O => ""
  | S n' => String space (spaces n')
  end.

(** The four characters JSON allows between tokens. *)
Definition is_ws (c : ascii) : bool :=
  match N_of_ascii c with
  | 32%N | 9%N | 10%N | 13%N => true
  | _ => false
  end.

Fixpoint all_ws (s : string) : bool :=
  match s with
  | "" => true
  | String c s' => is_ws c && all_ws s'
  end.

End Chars.
Import Chars.

(** ** JSON values

    [typeof v === 'number'] values are IEEE doubles in JavaScript.  The
    development is written over an interface of the Number built-in, for the
    finite numbers a JSON text denotes: its [toString], the reader of a JSON
    number literal, and the order used by comparisons.  The one law is that
    the text of a number reads back as the number (JavaScript writes its two
    zeros with the same text, 0: they are one number here).  [Z], the
    integers printed in decimal, is the instance the examples run on: it
    agrees with Number on the integers below 2^53 in magnitude that are
    written without fraction or exponent; it reads no other literal, and
    beyond that range Number rounds and prints an exponent where [Z] does
    not.  It is an instance for the examples, not a model of Number. *)

(** First characters of a JSON number literal: a digit or the minus sign. *)
Definition num_start (c : ascii) : bool :=
  match c with
  | "-"%char | "0"%char | "1"%char | "2"%char | "3"%char | "4"%char
  | "5"%char | "6"%char | "7"%char | "8"%char | "9"%char => true
  | _ => false
  end.

(** Characters that can stand inside a JSON number literal. *)
Definition num_char (c : ascii) : bool :=
  num_start c ||
  match c with
  | "+"%char | "."%char | "e"%char | "E"%char => true
  | _ => false
  end.

(** A text at whose head a number literal has ended. *)
Definition num_delimited (rest : string) : bool :=
  match rest with
  | "" => true
  | String c _ => negb (num_char c)
  end.

Class JsNumber (num : Type) : Type := {
  (** Number.prototype.toString (radix 10) of a finite number *)
  num_toString : num -> string;
  (** the reader of a JSON number literal at the head of a text *)
  num_read : string -> option (num * string);
  (** the order behind the comparisons [<], [==], ... on numbers *)
  num_compare : num -> num -> comparison;
  num_toString_start :
    forall n, exists c s, num_toString n = String c s /\ num_start c = true;
  num_read_toString :
    forall n rest, num_delimited rest = true ->
      num_read (num_toString n ++ rest) = Some (n, rest);
}.

(** *** The integers as numbers *)

Module ZNumber.

Definition toString (n : Z) : string := NilZero.string_of_int (Z.to_int n).

Definition digit (c : ascii) : option (Decimal.uint -> Decimal.uint) :=
  match c with
  | "0"%char => Some Decimal.D0 | "1"%char => Some Decimal.D1
  | "2"%char => Some Decimal.D2 | "3"%char => Some Decimal.D3
  | "4"%char => Some Decimal.D4 | "5"%char => Some Decimal.D5
  | "6"%char => Some Decimal.D6 | "7"%char => Some Decimal.D7
  | "8"%char => Some Decimal.D8 | "9"%char => Some Decimal.D9
  | _ => None
  end.

(** The longest run of digits at the head of [s], and what follows it. *)
Fixpoint read_digits (s : string) : Decimal.uint * string :=
  match s with
  | "" => (Decimal.Nil, "")
  | String c s' =>
      match digit c with
      | Some d => let (u, rest) := read_digits s' in (d u, rest)
      | None => (Decimal.Nil, s)
      end
  end.

(** JSON's [int]: a single zero, or digits that do not start with zero.
    A fraction or an exponent is not an integer: the reader refuses it. *)
Definition read_uint (s : string) : option (Decimal.uint * string) :=
  match read_digits s with
  | (Decimal.Nil, _) => None
  | (Decimal.D0 Decimal.Nil, rest) => Some (Decimal.D0 Decimal.Nil, rest)
  | (Decimal.D0 _, _) => None
  | (u, rest) => Some (u, rest)
  end.

Definition read (s : string) : option (Z * string) :=
  let finish (neg : bool) (r : option (Decimal.uint * string)) :=
    match r with
    | Some (u, rest) =>
        if num_delimited rest
        then Some (Z.of_int (if neg then Decimal.Neg u else Decimal.Pos u), rest)
        else None
    | None => None
    end in
  match s with
  | String "-" s' => finish true (read_uint s')
  | _ => finish false (read_uint s)
  end.

End ZNumber.

Section ZNumberFacts.
Import ZNumber.

Lemma digit_none_delimited c rest :
  num_delimited (String c rest) = true -> digit c = None.
Proof.
  destruct c as [[] [] [] [] [] [] [] []]; simpl; intros E;
    try discriminate E; reflexivity.
Qed.

Lemma read_digits_string_of_uint u rest :
  num_delimited rest = true ->
  read_digits (NilEmpty.string_of_uint u ++ rest) = (u, rest).
Proof.
  intros Hrest.
  induction u; simpl; try (rewrite IHu; reflexivity).
  destruct rest as [|c rest']; [reflexivity|].
  simpl. rewrite (digit_none_delimited _ _ Hrest). reflexivity.
Qed.

Lemma nzhead_not_D0 u v : Decimal.nzhead u <> Decimal.D0 v.
Proof. induction u; simpl; try discriminate. exact IHu. Qed.

(** The decimal numeral of a positive number is a fixed point of the
    normalisation: it is not empty and does not start with a zero. *)
Lemma to_uint_head p :
  match Pos.to_uint p with
  | Decimal.Nil | Decimal.D0 _ => False
  | _ => True
  end.
Proof.
  pose proof (DecimalPos.Unsigned.to_uint_nonnil p) as Hnil.
  pose proof (DecimalPos.Unsigned.to_uint_nonzero p) as Hzero.
  assert (Hfix : Decimal.unorm (Pos.to_uint p) = Pos.to_uint p).
  { rewrite <- DecimalPos.Unsigned.to_of, DecimalPos.Unsigned.of_to.
    reflexivity. }
  destruct (Pos.to_uint p) as [|u| | | | | | | | |] eqn:E; try exact I.
  - congruence.
  - rewrite unorm_D0 in Hfix. unfold Decimal.unorm in Hfix.
    destruct (Decimal.nzhead u) eqn:Eh;
      try (apply (nzhead_not_D0 u u); rewrite Eh; exact Hfix).
    apply Hzero. symmetry. exact Hfix.
Qed.

Lemma read_uint_to_uint p rest :
  num_delimited rest = true ->
  read_uint (NilEmpty.string_of_uint (Pos.to_uint p) ++ rest)
  = Some (Pos.to_uint p, rest).
Proof.
  intros Hrest. unfold read_uint.
  rewrite (read_digits_string_of_uint _ _ Hrest).
  pose proof (to_uint_head p) as Hhead.
  destruct (Pos.to_uint p); try contradiction; reflexivity.
Qed.

Lemma string_of_uint_to_uint p :
  NilZero.string_of_uint (Pos.to_uint p)
  = NilEmpty.string_of_uint (Pos.to_uint p).
Proof.
  pose proof (to_uint_head p) as Hhead.
  destruct (Pos.to_uint p); try contradiction; reflexivity.
Qed.

Lemma string_of_uint_start p :
  exists c s, NilEmpty.string_of_uint (Pos.to_uint p) = String c s
              /\ num_start c = true /\ c <> "-"%char.
Proof.
  pose proof (to_uint_head p) as Hhead.
  destruct (Pos.to_uint p); try contradiction; simpl;
    eexists; eexists; (split; [reflexivity|split; [reflexivity|discriminate]]).
Qed.

Lemma toString_start n :
  exists c s, toString n = String c s /\ num_start c = true.
Proof.
  unfold toString. destruct n as [|p|p]; simpl.
  - exists "0"%char, "". split; reflexivity.
  - rewrite string_of_uint_to_uint.
    destruct (string_of_uint_start p) as (c & s & E & Hc & _).
    exists c, s. split; assumption.
  - eexists; eexists; split; reflexivity.
Qed.

Lemma read_toString n rest :
  num_delimited rest = true -> read (toString n ++ rest) = Some (n, rest).
Proof.
  intros Hrest. unfold toString. destruct n as [|p|p]; simpl Z.to_int.
  - simpl. unfold read_uint. simpl.
    replace (read_digits rest) with (Decimal.Nil, rest).
    + rewrite Hrest. reflexivity.
    + destruct rest as [|c r]; [reflexivity|].
      simpl. rewrite (digit_none_delimited _ _ Hrest). reflexivity.
  - simpl NilZero.string_of_int. rewrite string_of_uint_to_uint.
    destruct (string_of_uint_start p) as (c & s & E & _ & Hc).
    unfold read.
    assert (Hread := read_uint_to_uint p rest Hrest).
    rewrite E in *. simpl append.
    destruct c as [[] [] [] [] [] [] [] []];
      try (exfalso; apply Hc; reflexivity);
      simpl append in Hread; rewrite Hread, Hrest;
      change (Z.of_int (Decimal.Pos (Pos.to_uint p)))
        with (Z.of_int (Z.to_int (Z.pos p)));
      rewrite DecimalZ.of_to; reflexivity.
  - simpl NilZero.string_of_int. rewrite string_of_uint_to_uint.
    simpl append. unfold read. cbv beta iota zeta.
    rewrite (read_uint_to_uint p rest Hrest), Hrest.
    change (Z.of_int (Decimal.Neg (Pos.to_uint p)))
      with (Z.of_int (Z.to_int (Z.neg p))).
    rewrite DecimalZ.of_to. reflexivity.
Qed.

End ZNumberFacts.

#[export] Instance Z_JsNumber : JsNumber Z := {
  num_toString := ZNumber.toString;
  num_read := ZNumber.read;
  num_compare := Z.compare;
  num_toString_start := toString_start;
  num_read_toString := read_toString;
}.

(** *** Values

    What JSON.parse returns: null, a boolean, a number, a string, an array,
    or an object.  An object is the list of its own enumerable properties in
    enumeration order (the order Object.keys and JSON.stringify follow). *)

Inductive value (num : Type) : Type :=
| JNull
| JBool (b : bool)
| JNumber (n : num)
| JString (s : string)
| JArray (elements : list (value num))
| JObject (members : list (string * value num)).

Arguments JNull {num}.
Arguments JBool {num} b.
Arguments JNumber {num} n.
Arguments JString {num} s.
Arguments JArray {num} elements.
Arguments JObject {num} members.

Section ValueInduction.
Context {num : Type}.
Variable P : value num -> Prop.
Hypothesis Hnull : P JNull.
Hypothesis Hbool : forall b, P (JBool b).
Hypothesis Hnumber : forall n, P (JNumber n).
Hypothesis Hstring : forall s, P (JString s).
Hypothesis Harray : forall elements, Forall P elements -> P (JArray elements).
Hypothesis Hobject :
  forall members, Forall (fun kv => P (snd kv)) members -> P (JObject members).

(** Induction over a value with the hypothesis for every element of an
    array and every property value of an object. *)
Fixpoint value_nested_ind (v : value num) : P v :=
  match v with
  | JNull => Hnull
  | JBool b => Hbool b
  | JNumber n => Hnumber n
  | JString s => Hstring s
  | JArray elements =>
      Harray elements
        ((fix go (l : list (value num)) : Forall P l :=
            match l with
            | [] => Forall_nil _
            | x :: l' => Forall_cons x (value_nested_ind x) (go l')
            end) elements)
  | JObject members =>
      Hobject members
        ((fix go (l : list (string * value num))
            : Forall (fun kv => P (snd kv)) l :=
            match l with
            | [] => Forall_nil _
            | kv :: l' =>
                Forall_cons kv (value_nested_ind (snd kv)) (go l')
            end) members)
  end.
End ValueInduction.

(** ** The runtime: Array.prototype.join and lodash *)

Module Lodash.

(** Array.prototype.join on an array of strings: the elements with the
    separator between neighbours. *)
Fixpoint Array_join (sep : string) (parts : list string) : string :=
  match parts with
  | [] => ""
  | [p] => p
  | p :: rest => p ++ sep ++ Array_join sep rest
  end.

(** [_.map(array, iteratee)]: the iteratee is called with (value, index,
    array); the callers here pass iteratees of one parameter. *)
Definition map {A B} (array : list A) (iteratee : A -> B) : list B :=
  List.map iteratee array.

(** [_.join(array, separator)] is the native join. *)
Definition join (array : list string) (separator : string) : string :=
  Array_join separator array.

End Lodash.

(** ** The runtime: JSON.stringify

    ECMAScript's JSON.stringify(value, replacer, space) with no replacer, on
    the values above: the abstract operations QuoteJSONString,
    SerializeJSONProperty, SerializeJSONArray and SerializeJSONObject, with
    the serialisation state reduced to its two strings [gap] and [indent]. *)

Module JSON.

Definition hex_digit (n : N) : ascii :=
  match n with
  | 0 => "0" | 1 => "1" | 2 => "2" | 3 => "3" | 4 => "4" | 5 => "5"
  | 6 => "6" | 7 => "7" | 8 => "8" | 9 => "9" | 10 => "a" | 11 => "b"
  | 12 => "c" | 13 => "d" | 14 => "e" | _ => "f"
  end%N%char.

(** UnicodeEscape of a code unit below 256: backslash, u, four lowercase
    hexadecimal digits. *)
Definition UnicodeEscape (c : ascii) : string :=
  let n := N_of_ascii c in
  String backslash
    (String "u" (String "0" (String "0"
      (String (hex_digit (n / 16)) (String (hex_digit (n mod 16)) ""))))).

(** One code unit inside a quoted string. *)
Definition quote_char (c : ascii) : string :=
  match N_of_ascii c with
  | 8 => String backslash "b"
  | 9 => String backslash "t"
  | 10 => String backslash "n"
  | 12 => String backslash "f"
  | 13 => String backslash "r"
  | 34 => String backslash (String dquote "")
  | 92 => String backslash (String backslash "")
  | n => if (n <? 32)%N then UnicodeEscape c else String c ""
  end%N.

Fixpoint quote_body (s : string) : string :=
  match s with
  | "" => ""
  | String c s' => quote_char c ++ quote_body s'
  end.

Definition QuoteJSONString (s : string) : string :=
  String dquote (quote_body s ++ quote).

(** The last steps of SerializeJSONArray and SerializeJSONObject: an
    empty list of parts gives the two brackets; with an empty gap the
    parts are separated by commas; otherwise every part stands on a line
    of its own at the new indentation and the closing bracket at the old
    one ([stepback]). *)
Definition wrap (open close gap indent stepback : string)
    (partial : list string) : string :=
  match partial with
  | [] => open ++ close
  | _ =>
      match gap with
      | "" => open ++ Lodash.Array_join "," partial ++ close
      | _ =>
          let separator := "," ++ nl ++ indent in
          open ++ nl ++ indent ++ Lodash.Array_join separator partial
               ++ nl ++ stepback ++ close
      end
  end.

Section Serialize.
Context {num : Type} `{JsNumber num}.
Variable gap : string.

Fixpoint SerializeJSONProperty (indent : string) (v : value num) : string :=
  match v with
  | JNull => "null"
  | JBool true => "true"
  | JBool false => "false"
  | JString s => QuoteJSONString s
  | JNumber n => num_toString n
  | JArray elements =>
      (* SerializeJSONArray *)
      let stepback := indent in
      let indent := indent ++ gap in
      let partial := List.map (SerializeJSONProperty indent) elements in
      wrap "[" "]" gap indent stepback partial
  | JObject members =>
      (* SerializeJSONObject *)
      let stepback := indent in
      let indent := indent ++ gap in
      let partial :=
        List.map
          (fun kv =>
             let member := QuoteJSONString (fst kv) ++ ":" in
             let member := match gap with
                           | "" => member
                           | _ => member ++ " "
                           end in
             member ++ SerializeJSONProperty indent (snd kv))
          members in
      wrap "{" "}" gap indent stepback partial
  end.
End Serialize.

(** [space]: a number is clamped to 10 and gives that many spaces. *)
Definition gap_of_space (space : nat) : string := spaces (Nat.min 10 space).

(** [JSON.stringify(value, null, space)] *)
Definition stringify {num} `{JsNumber num} (v : value num) (space : nat)
    : string :=
  SerializeJSONProperty (gap_of_space space) "" v.

(** *** JSON.parse

    The reader of a JSON text (ECMA-404): white space between tokens, the
    three literals, numbers through [num_read], strings with their
    escapes, arrays and objects.  An object's members are returned as the
    text has them, in its order.  (JavaScript keeps one member per name and
    lists integer-like names first; the text of a JavaScript object, as
    JSON.stringify writes it, already is in that form.)  [fuel] bounds the
    nested calls; [parse] below hands over the length of the text. *)

Fixpoint skip_ws (s : string) : string :=
  match s with
  | "" => ""
  | String c s' => if is_ws c then skip_ws s' else s
  end.

Definition hex_value (c : ascii) : option N :=
  let n := N_of_ascii c in
  if ((48 <=? n) && (n <=? 57))%N then Some (n - 48)%N
  else if ((97 <=? n) && (n <=? 102))%N then Some (n - 87)%N
  else if ((65 <=? n) && (n <=? 70))%N then Some (n - 55)%N
  else None.

(** The code unit of a u-escape.  The embedding has the code units below
    256: an escape of a higher one is an escape of the grammar (see
    [Grammar.string_body]) whose string has no value here, and [None]. *)
Definition hex4 (h1 h2 h3 h4 : ascii) : option ascii :=
  match hex_value h1, hex_value h2, hex_value h3, hex_value h4 with
  | Some a, Some b, Some c, Some d =>
      let n := (((a * 16 + b) * 16 + c) * 16 + d)%N in
      if (n <? 256)%N then Some (ascii_of_N n) else None
  | _, _, _, _ => None
  end.

Definition push (c : ascii) (r : option (string * string))
    : option (string * string) :=
  match r with
  | Some (body, rest) => Some (String c body, rest)
  | None => None
  end.

(** After the opening quote: the characters up to the closing quote with
    the escapes decoded, and the text after the closing quote. *)
Fixpoint parse_string_body (s : string) : option (string * string) :=
  match s with
  | "" => None
  | String c s' =>
      if (c =? dquote)%char then Some ("", s')
      else if (c =? backslash)%char then
        match s' with
        | "" => None
        | String e s'' =>
            if (e =? dquote)%char then push dquote (parse_string_body s'')
            else if (e =? backslash)%char
                 then push backslash (parse_string_body s'')
            else if (e =? "/")%char then push "/" (parse_string_body s'')
            else if (e =? "b")%char then push "008" (parse_string_body s'')
            else if (e =? "f")%char then push "012" (parse_string_body s'')
            else if (e =? "n")%char then push "010" (parse_string_body s'')
            else if (e =? "r")%char then push "013" (parse_string_body s'')
            else if (e =? "t")%char then push "009" (parse_string_body s'')
            else if (e =? "u")%char then
              match s'' with
              | String h1 (String h2 (String h3 (String h4 s3))) =>
                  match hex4 h1 h2 h3 h4 with
                  | Some u => push u (parse_string_body s3)
                  | None => None
                  end
              | _ => None
              end
            else None
        end
      else if (N_of_ascii c <? 32)%N then None
      else push c (parse_string_body s')
  end.

(** [expect lit s]: [s] without its prefix [lit]. *)
Fixpoint expect (lit s : string) : option string :=
  match lit, s with
  | "", _ => Some s
  | String a lit', String b s' =>
      if (a =? b)%char then expect lit' s' else None
  | String _ _, "" => None
  end.

(** [closing c s]: the text after the bracket [c], when [c] is the next
    token of [s] (an empty array or object). *)
Definition closing (c : ascii) (s : string) : option string :=
  match skip_ws s with
  | String c' rest => if (c' =? c)%char then Some rest else None
  | "" => None
  end.

Section Parse.
Context {num : Type} `{JsNumber num}.

Fixpoint parse_value (fuel : nat) (s : string)
    : option (value num * string) :=
  match fuel with
  | O => None
  | S fuel' =>
      match skip_ws s with
      | "" => None
      | String c s1 =>
          if num_start c then
            match num_read (String c s1) with
            | Some (n, rest) => Some (JNumber n, rest)
            | None => None
            end
          else if (c =? dquote)%char then
            match parse_string_body s1 with
            | Some (str, rest) => Some (JString str, rest)
            | None => None
            end
          else if (c =? "[")%char then
            match closing "]" s1 with
            | Some rest => Some (JArray [], rest)
            | None =>
                match parse_elements fuel' s1 with
                | Some (elements, rest) => Some (JArray elements, rest)
                | None => None
                end
            end
          else if (c =? "{")%char then
            match closing "}" s1 with
            | Some rest => Some (JObject [], rest)
            | None =>
                match parse_members fuel' s1 with
                | Some (members, rest) => Some (JObject members, rest)
                | None => None
                end
            end
          else if (c =? "t")%char then
            option_map (fun rest => (JBool true, rest)) (expect "rue" s1)
          else if (c =? "f")%char then
            option_map (fun rest => (JBool false, rest)) (expect "alse" s1)
          else if (c =? "n")%char then
            option_map (fun rest => (JNull, rest)) (expect "ull" s1)
          else None
      end
  end

(** elements after the opening bracket, up to and with the closing one *)
with parse_elements (fuel : nat) (s : string)
    : option (list (value num) * string) :=
  match fuel with
  | O => None
  | S fuel' =>
      match parse_value fuel' s with
      | None => None
      | Some (v, rest) =>
          match skip_ws rest with
          | String c rest' =>
              if (c =? ",")%char then
                match parse_elements fuel' rest' with
                | Some (vs, rest'') => Some (v :: vs, rest'')
                | None => None
                end
              else if (c =? "]")%char then Some ([v], rest')
              else None
          | "" => None
          end
      end
  end

(** members after the opening brace, up to and with the closing one *)
with parse_members (fuel : nat) (s : string)
    : option (list (string * value num) * string) :=
  match fuel with
  | O => None
  | S fuel' =>
      match skip_ws s with
      | String q s1 =>
          if (q =? dquote)%char then
            match parse_string_body s1 with
            | None => None
            | Some (key, s2) =>
                match skip_ws s2 with
                | String colon s3 =>
                    if (colon =? ":")%char then
                      match parse_value fuel' s3 with
                      | None => None
                      | Some (v, rest) =>
                          match skip_ws rest with
                          | String c rest' =>
                              if (c =? ",")%char then
                                match parse_members fuel' rest' with
                                | Some (ms, rest'') =>
                                    Some ((key, v) :: ms, rest'')
                                | None => None
                                end
                              else if (c =? "}")%char
                                   then Some ([(key, v)], rest')
                              else None
                          | "" => None
                          end
                      end
                    else None
                | "" => None
                end
            end
          else None
      | "" => None
      end
  end.

(** [JSON.parse(text)]: one value, then nothing but white space.  [None]
    stands for the SyntaxError on the texts that are no JSON texts
    ([Grammar.is_json_text]); on a JSON text it says that the value lies
    outside the embedding (a string with a code unit from 256 on, a number
    the instance does not read), and nothing about JavaScript. *)
Definition parse (text : string) : option (value num) :=
  match parse_value (S (String.length text)) text with
  | Some (v, rest) =>
      match skip_ws rest with
      | "" => Some v
      | _ => None
      end
  | None => None
  end.

End Parse.

(** *** The members JSON.parse keeps

    JavaScript's JSON.parse makes an object with one member per name (the
    last value written under it) and lists the names that are array indices
    first, in ascending order; [parse] above returns the members as the
    text has them.  The two agree on a text no object of which repeats a
    name or has a name written with digits only.  [members_kept v]: the
    value [v] has such objects only, so that the object JSON.parse makes of
    its text lists the members as [v] does. *)

Definition digit (c : ascii) : bool :=
  let n := N_of_ascii c in ((48 <=? n) && (n <=? 57))%N.

Fixpoint all_digits (s : string) : bool :=
  match s with
  | "" => true
  | String c s' => digit c && all_digits s'
  end.

Definition integer_like (name : string) : bool :=
  match name with
  | "" => false
  | _ => all_digits name
  end.

Fixpoint distinct (names : list string) : bool :=
  match names with
  | [] => true
  | name :: names' =>
      negb (existsb (String.eqb name) names') && distinct names'
  end.

Fixpoint members_kept {num} (v : value num) : bool :=
  match v with
  | JArray elements => forallb members_kept elements
  | JObject members =>
      distinct (List.map fst members)
      && forallb (fun kv => negb (integer_like (fst kv))
                            && members_kept (snd kv))
           members
  | _ => true
  end.

End JSON.

(** ** The grammar of JSON texts

    ECMA-404, as JSON.parse reads it: which texts are JSON texts, whatever
    values they denote.  Every u-escape of four hexadecimal digits is an
    escape, and a number is an integer part with an optional fraction and an
    optional exponent.  [JSON.parse] of the embedding reads a value from
    some of these texts and from no other text; on the others JavaScript's
    JSON.parse throws its SyntaxError. *)

Module Grammar.

Definition digit (c : ascii) : bool :=
  let n := N_of_ascii c in ((48 <=? n) && (n <=? 57))%N.

Fixpoint digits (s : string) : string :=
  match s with
  | "" => ""
  | String c s' => if digit c then digits s' else s
  end.

(** one digit or more *)
Definition digits1 (s : string) : option string :=
  match s with
  | String c s' => if digit c then Some (digits s') else None
  | "" => None
  end.

(** int: a single zero, or a digit from 1 to 9 and further digits *)
Definition int (s : string) : option string :=
  match s with
  | String c s' =>
      if (c =? "0")%char then Some s'
      else if digit c then Some (digits s')
      else None
  | "" => None
  end.

(** frac: nothing, or a point and one digit or more *)
Definition frac (s : string) : option string :=
  match s with
  | String c s' => if (c =? ".")%char then digits1 s' else Some s
  | "" => Some s
  end.

(** exp: nothing, or e or E, an optional sign, and one digit or more *)
Definition exp (s : string) : option string :=
  match s with
  | String c s' =>
      if ((c =? "e") || (c =? "E"))%char then
        match s' with
        | String sign s'' =>
            if ((sign =? "+") || (sign =? "-"))%char then digits1 s''
            else digits1 s'
        | "" => None
        end
      else Some s
  | "" => Some s
  end.

Definition bind (r : option string) (f : string -> option string)
    : option string :=
  match r with
  | Some s => f s
  | None => None
  end.

(** number: an optional minus sign, int, frac, exp; the text after it *)
Definition number (s : string) : option string :=
  let unsigned s := bind (bind (int s) frac) exp in
  match s with
  | String c s' => if (c =? "-")%char then unsigned s' else unsigned s
  | "" => None
  end.

Definition hex (c : ascii) : bool :=
  match JSON.hex_value c with
  | Some _ => true
  | None => false
  end.

Definition simple_escape (e : ascii) : bool :=
  ((e =? dquote) || (e =? backslash) || (e =? "/") || (e =? "b")
   || (e =? "f") || (e =? "n") || (e =? "r") || (e =? "t"))%char.

(** After the opening quote of a string: the text after its closing
    quote. *)
Fixpoint string_body (s : string) : option string :=
  match s with
  | "" => None
  | String c s' =>
      if (c =? dquote)%char then Some s'
      else if (c =? backslash)%char then
        match s' with
        | "" => None
        | String e s'' =>
            if simple_escape e then string_body s''
            else if (e =? "u")%char then
              match s'' with
              | String h1 (String h2 (String h3 (String h4 s3))) =>
                  if hex h1 && hex h2 && hex h3 && hex h4
                  then string_body s3
                  else None
              | _ => None
              end
            else None
        end
      else if (N_of_ascii c <? 32)%N then None
      else string_body s'
  end.

(** value, and the elements and members after an opening bracket up to
    and with the closing one; [fuel] bounds the nested calls. *)
Fixpoint value (fuel : nat) (s : string) : option string :=
  match fuel with
  | O => None
  | S fuel' =>
      match JSON.skip_ws s with
      | "" => None
      | String c s1 =>
          if num_start c then number (String c s1)
          else if (c =? dquote)%char then string_body s1
          else if (c =? "[")%char then
            match JSON.closing "]" s1 with
            | Some rest => Some rest
            | None => elements fuel' s1
            end
          else if (c =? "{")%char then
            match JSON.closing "}" s1 with
            | Some rest => Some rest
            | None => members fuel' s1
            end
          else if (c =? "t")%char then JSON.expect "rue" s1
          else if (c =? "f")%char then JSON.expect "alse" s1
          else if (c =? "n")%char then JSON.expect "ull" s1
          else None
      end
  end

with elements (fuel : nat) (s : string) : option string :=
  match fuel with
  | O => None
  | S fuel' =>
      match value fuel' s with
      | None => None
      | Some rest =>
          match JSON.skip_ws rest with
          | String c rest' =>
              if (c =? ",")%char then elements fuel' rest'
              else if (c =? "]")%char then Some rest'
              else None
          | "" => None
          end
      end
  end

with members (fuel : nat) (s : string) : option string :=
  match fuel with
  | O => None
  | S fuel' =>
      match JSON.skip_ws s with
      | String q s1 =>
          if (q =? dquote)%char then
            match string_body s1 with
            | None => None
            | Some s2 =>
                match JSON.skip_ws s2 with
                | String colon s3 =>
                    if (colon =? ":")%char then
                      match value fuel' s3 with
                      | None => None
                      | Some rest =>
                          match JSON.skip_ws rest with
                          | String c rest' =>
                              if (c =? ",")%char then members fuel' rest'
                              else if (c =? "}")%char then Some rest'
                              else None
                          | "" => None
                          end
                      end
                    else None
                | "" => None
                end
            end
          else None
      | "" => None
      end
  end.

(** A JSON text: one value between white space. *)
Definition is_json_text (text : string) : bool :=
  match value (S (String.length text)) text with
  | Some rest => all_ws rest
  | None => false
  end.

End Grammar.


(** ** ResultFormatter

    The strings that [format] and [convertResultToString] return, as
    functions of the JSON values handed to them.  [Heap.format] below is
    the call itself, on the heap and with a call stack, where
    JSON.stringify can throw. *)

Module ResultFormatter.
Section WithNumber.
Context {num : Type} `{JsNumber num}.

Definition convertResultToString (result : value num) : string :=
  match result with
  | JString s => s
  | JNumber n => num_toString n
  | _ => JSON.stringify result 0
  end.

Definition format (results : list (value num)) (createJson : bool)
    : string :=
  if createJson
  then JSON.stringify (JArray results) 2
  else Lodash.join (Lodash.map results convertResultToString) nl.

End WithNumber.
End ResultFormatter.

(** ** The formatter on the heap

    In JavaScript an array or an object is a mutable cell of the heap and a
    value holds a reference to it: the matches of a query are references
    into the parsed document, two of them can be the same object or lie one
    inside the other, and a function that is handed them could write to
    them.  JSON.stringify is a recursive function of the runtime: its
    nested calls take room on the call stack, and it throws a RangeError
    when there is none left, and a TypeError when it meets the object it is
    serialising inside itself.  The formatter has no handler: what
    JSON.stringify throws leaves [format].

    [Heap.format] is the formatter as it runs: on a heap, with a call stack
    that has room for [frames] nested arrays and objects, returning the heap
    it leaves and either the string or what was thrown. *)

Module Heap.

Definition loc : Set := nat.

(** What is thrown.  [Wrong] stands for what no run meets: a reference to
    no object, or an argument that is not of its TypeScript type. *)
Variant exn : Set := TypeError | RangeError | Wrong.

(** All the results in order, or the first error. *)
Fixpoint mapM {A B} (f : A -> exn + B) (l : list A) : exn + list B :=
  match l with
  | [] => inr []
  | x :: l' =>
      match f x with
      | inl e => inl e
      | inr y =>
          match mapM f l' with
          | inl e => inl e
          | inr ys => inr (y :: ys)
          end
      end
  end.

Section WithNumber.
Context {num : Type} `{JsNumber num}.

(** A JavaScript value of the kinds a JSON document has: a primitive, or a
    reference to an Array or to an ordinary object. *)
Inductive val : Type :=
| VNull
| VBool (b : bool)
| VNumber (n : num)
| VString (s : string)
| VRef (l : loc).

(** An object of the heap: an Array with its elements, or an ordinary
    object with its own properties in the order they are enumerated. *)
Inductive object : Type :=
| OArray (elements : list val)
| OObject (properties : list (string * val)).

(** The heap: the objects by their locations; a new object takes the next
    location. *)
Definition heap : Type := list object.

Definition lookup (h : heap) (l : loc) : option object := nth_error h l.

Definition alloc (h : heap) (o : object) : heap * loc :=
  ((h ++ [o])%list, List.length h).

(** SerializeJSONProperty with SerializeJSONArray and SerializeJSONObject
    (ECMAScript, JSON.stringify) on the heap.  [stack] holds the objects
    that are being serialised: meeting one of them again is the TypeError
    of a cyclic structure.  Each nested array or object takes one of the
    [frames].  (The objects of a parsed JSON document have no callable
    toJSON, and their properties are data properties: reading them runs no
    code.) *)
Fixpoint SerializeJSONProperty (frames : nat) (h : heap) (stack : list loc)
    (gap indent : string) (v : val) : exn + string :=
  match v with
  | VNull => inr "null"
  | VBool true => inr "true"
  | VBool false => inr "false"
  | VString s => inr (JSON.QuoteJSONString s)
  | VNumber n => inr (num_toString n)
  | VRef l =>
      match frames with
      | O => inl RangeError
      | S frames' =>
          if existsb (Nat.eqb l) stack then inl TypeError
          else
            let stack := l :: stack in
            let stepback := indent in
            let indent := indent ++ gap in
            match lookup h l with
            | None => inl Wrong
            | Some (OArray elements) =>
                match mapM (SerializeJSONProperty frames' h stack gap indent)
                        elements with
                | inl e => inl e
                | inr partial =>
                    inr (JSON.wrap "[" "]" gap indent stepback partial)
                end
            | Some (OObject properties) =>
                match mapM
                        (fun kv =>
                           let member := JSON.QuoteJSONString (fst kv) ++ ":" in
                           let member := match gap with
                                         | "" => member
                                         | _ => member ++ " "
                                         end in
                           match SerializeJSONProperty frames' h stack gap
                                   indent (snd kv) with
                           | inl e => inl e
                           | inr str => inr (member ++ str)
                           end)
                        properties with
                | inl e => inl e
                | inr partial =>
                    inr (JSON.wrap "{" "}" gap indent stepback partial)
                end
            end
      end
  end.

(** [JSON.stringify(value, null, space)] *)
Definition stringify (frames : nat) (h : heap) (v : val) (space : nat)
    : exn + string :=
  SerializeJSONProperty frames h [] (JSON.gap_of_space space) "" v.

Definition convertResultToString (frames : nat) (h : heap) (result : val)
    : exn + string :=
  match result with
  | VString s => inr s
  | VNumber n => inr (num_toString n)
  | _ => stringify frames h result 0
  end.

(** [format(results, createJson)], [results] being the reference to the
    array of the matches.  [_.map] returns a new array: no one reaches it
    before it is returned, and it takes its location of the heap when the
    mapping is done; [_.join] reads the strings it holds.  An error of the
    iteratee leaves [_.map], and [format], at once. *)
Definition format (frames : nat) (h : heap) (results : loc)
    (createJson : bool) : heap * (exn + string) :=
  if createJson
  then (h, stringify frames h (VRef results) 2)
  else
    match lookup h results with
    | Some (OArray elements) =>
        match mapM (convertResultToString frames h) elements with
        | inl e => (h, inl e)
        | inr strings =>
            let (h', mapped) := alloc h (OArray (List.map VString strings)) in
            (h', inr (Lodash.join strings nl))
        end
    | _ => (h, inl Wrong)
    end.

(** The JSON value that a value of the heap holds: the tree under it. *)
Inductive denotes (h : heap) : val -> value num -> Prop :=
| denotes_null : denotes h VNull JNull
| denotes_bool b : denotes h (VBool b) (JBool b)
| denotes_number n : denotes h (VNumber n) (JNumber n)
| denotes_string s : denotes h (VString s) (JString s)
| denotes_array l elements es :
    lookup h l = Some (OArray elements) ->
    Forall2 (denotes h) elements es ->
    denotes h (VRef l) (JArray es)
| denotes_object l properties ms :
    lookup h l = Some (OObject properties) ->
    Forall2 (fun kv m => fst kv = fst m /\ denotes h (snd kv) (snd m))
      properties ms ->
    denotes h (VRef l) (JObject ms).

End WithNumber.

Arguments val num : clear implicits.
Arguments object num : clear implicits.
Arguments heap num : clear implicits.

(** How deep the arrays and objects of a value are nested. *)
Fixpoint depth {num} (v : value num) : nat :=
  match v with
  | JArray elements => S (list_max (List.map depth elements))
  | JObject members =>
      S (list_max (List.map (fun kv => depth (snd kv)) members))
  | _ => 0
  end.



End Heap.

(** ** JsonPathExtension

    The extension talks to its three collaborators, all handed to its
    constructor: the editor functions (VSCodeFunctions), the query engine
    and the result formatter.  A method is an interaction tree whose events
    are the calls it makes on them, in the order it makes them; an [await]
    is the sequencing of the tree. *)

Module JsonPathExtension.

Import ITreeNotations.
Local Open Scope itree_scope.

Definition NoJsonDocumentErrorMsg : string :=
  "Active editor doesn't show a valid JSON file - please open a valid JSON file first".
Definition InvalidJsonPathErrorMsg : string :=
  "Provided jsonpath expression is not valid.".
Definition NoSavedQueriesErrorMsg : string :=
  "Couldn't find any JSONPath queries in configuration.".
Definition EnterJsonPathPrompt : string := "Enter jsonpath.".
Definition NoResultsFoundMsg : string :=
  "No results found for provided jsonpath.".

(** The status of a processed query.  The enum's declaration is not among
    the sources; its members are the four that [run] and [handleError]
    name. *)
Variant ProcessQueryResultStatus : Set :=
| Success
| InvalidQuery
| NoData
| Error.

Definition status_eqb (a b : ProcessQueryResultStatus) : bool :=
  match a, b with
  | Success, Success | InvalidQuery, InvalidQuery
  | NoData, NoData | Error, Error => true
  | _, _ => false
  end.

(** [OutputFormat]: the declaration is not among the sources; [Json] is the
    member the extension names, the other one stands for plain text. *)
Variant OutputFormat : Set :=
| Json
| Text.

(** A saved query, as the configuration holds it. *)
Record SavedQuery : Set := {
  title : string;
  query : string;
  output : OutputFormat;
}.

Record QuickPickItem : Set := {
  label : string;
  detail : string;
  description : string;
}.

(** What the extension reads of the active editor: the text of its
    document, and its view column (undefined, or a number). *)
Record TextEditor : Set := {
  document_getText : string;
  viewColumn : option Z;
}.

(** A document opened by the host, known by its uri. *)
Record TextDocument : Set := {
  document_uri : string;
}.

Module DocProvider.

Definition scheme : string := "jsonpath".

(** vscode.Uri.parse of [scheme://json-path?query]; the uri is carried as
    the text handed to the parser. *)
Definition encodeContent (query : string) : string :=
  scheme ++ "://json-path?" ++ query.

End DocProvider.

Section WithNumber.
Context {num : Type} `{JsNumber num}.

(** The result of [processQuery]: a status and, on success, the matches
    ([result] is undefined otherwise, or what the engine wants logged). *)
Record ProcessQueryResult : Type := {
  status : ProcessQueryResultStatus;
  result : option (list (value num));
}.

(** The calls of the extension on its collaborators. *)
Variant callE : Type -> Type :=
(* VSCodeFunctions *)
| showErrorMessage (message : string) : callE unit
| showInformationMessage (message : string) : callE unit
| showInputBox (prompt : string) (ignoreFocusOut : bool) : callE (option string)
| getConfiguration (section key : string) : callE (option (list SavedQuery))
| showQuickPick (items : list QuickPickItem) (matchOnDetail : bool)
  : callE (option QuickPickItem)
| openTextDocument (uri : string) : callE TextDocument
| showTextDocument (doc : TextDocument) (column : Z) : callE unit
(* vscode.languages and console *)
| setTextDocumentLanguage (doc : TextDocument) (language : string) : callE unit
| consoleError (payload : option (list (value num))) : callE unit
(* JsonPathQueryEngine *)
| processQuery (query : string) (jsonObject : value num)
  : callE ProcessQueryResult
(* ResultFormatter *)
| format (results : list (value num)) (createJson : bool) : callE string.

Definition handleError (r : ProcessQueryResult) : itree callE unit :=
  match status r with
  | InvalidQuery => ITree.trigger (showErrorMessage InvalidJsonPathErrorMsg)
  | NoData => ITree.trigger (showInformationMessage NoResultsFoundMsg)
  | Error => ITree.trigger (consoleError (result r))
  | Success => Ret tt
  end.

(** [jsonObject instanceof Object]: arrays and objects are, the primitive
    values (and null) are not. *)
Definition instanceof_Object (v : value num) : bool :=
  match v with
  | JArray _ | JObject _ => true
  | _ => false
  end.

(** [None] is [undefined]: the text does not parse (the catch), or what it
    parses to is not an object.  (Where [JSON.parse] is [None] on a JSON
    text, see there, this [None] says nothing about JavaScript: the
    theorems below speak of texts that are no JSON texts, or that
    [JSON.parse] reads.) *)
Definition getJsonObject (editor : TextEditor) : option (value num) :=
  let text := document_getText editor in
  match JSON.parse text with
  | Some jsonObject =>
      if negb (instanceof_Object jsonObject) then None else Some jsonObject
  | None => None
  end.

Definition showContent (content : string) (createJson : bool) (column : Z)
  : itree callE unit :=
  let language := if createJson then "json" else "plaintext" in
  let uri := DocProvider.encodeContent content in
  doc <- ITree.trigger (openTextDocument uri) ;;
  ITree.trigger (setTextDocumentLanguage doc language) ;;
  ITree.trigger (showTextDocument doc column).

Definition getSavedQueries : itree callE (option (list SavedQuery)) :=
  ITree.trigger (getConfiguration "jsonPathExtract" "savedQueries").

Definition selectSavedQuery (queries : list SavedQuery)
  : itree callE (option SavedQuery) :=
  let quickPicks :=
    Lodash.map queries
      (fun q => {| label := title q; detail := query q; description := "" |}) in
  selectedPick <- ITree.trigger (showQuickPick quickPicks true) ;;
  match selectedPick with
  | None => Ret None
  | Some selectedPick =>
      Ret (List.find (fun sq => String.eqb (query sq) (detail selectedPick))
             queries)
  end.

(** [(activeTextEditor.viewColumn || 0) + 1] *)
Definition nextColumn (editor : TextEditor) : Z :=
  (match viewColumn editor with
   | Some c => if (c =? 0)%Z then 0 else c
   | None => 0
   end + 1)%Z.

(** What [run] and [runSavedQuery] both do with the engine's answer: any
    status but Success, or an undefined result, goes to [handleError];
    otherwise the result is formatted and shown beside the editor. *)
Definition showResult (editor : TextEditor) (r : ProcessQueryResult)
    (createJson : bool) : itree callE unit :=
  match result r with
  | Some results =>
      if negb (status_eqb (status r) Success) then handleError r
      else
        content <- ITree.trigger (format results createJson) ;;
        showContent content createJson (nextColumn editor)
  | None => handleError r
  end.

Definition run (activeTextEditor : option TextEditor) (createJson : bool)
  : itree callE unit :=
  match activeTextEditor with
  | None => ITree.trigger (showErrorMessage NoJsonDocumentErrorMsg)
  | Some editor =>
      match getJsonObject editor with
      | None => ITree.trigger (showErrorMessage NoJsonDocumentErrorMsg)
      | Some jsonObject =>
          input <- ITree.trigger (showInputBox EnterJsonPathPrompt true) ;;
          match input with
          | None => Ret tt
          | Some input =>
              r <- ITree.trigger (processQuery input jsonObject) ;;
              showResult editor r createJson
          end
      end
  end.

Definition runSavedQuery (activeTextEditor : option TextEditor)
  : itree callE unit :=
  match activeTextEditor with
  | None => ITree.trigger (showErrorMessage NoJsonDocumentErrorMsg)
  | Some editor =>
      match getJsonObject editor with
      | None => ITree.trigger (showErrorMessage NoJsonDocumentErrorMsg)
      | Some jsonObject =>
          savedQueries <- getSavedQueries ;;
          match savedQueries with
          | None | Some [] =>
              ITree.trigger (showErrorMessage NoSavedQueriesErrorMsg)
          | Some savedQueries =>
              selectedQuery <- selectSavedQuery savedQueries ;;
              match selectedQuery with
              | None => Ret tt
              | Some selectedQuery =>
                  r <- ITree.trigger
                         (processQuery (query selectedQuery) jsonObject) ;;
                  let createJson :=
                    match output selectedQuery with
                    | Json => true
                    | Text => false
                    end in
                  showResult editor r createJson
              end
          end
      end
  end.

(** *** Running a method against a host

    [call_name] forgets the answer type of a call; [exec] runs a method
    with the collaborators played by [host] and lists the calls made. *)

Definition call_name {T} (c : callE T) : string :=
  match c with
  | showErrorMessage _ => "showErrorMessage"
  | showInformationMessage _ => "showInformationMessage"
  | showInputBox _ _ => "showInputBox"
  | getConfiguration _ _ => "getConfiguration"
  | showQuickPick _ _ => "showQuickPick"
  | openTextDocument _ => "openTextDocument"
  | showTextDocument _ _ => "showTextDocument"
  | setTextDocumentLanguage _ _ => "setTextDocumentLanguage"
  | consoleError _ => "console.error"
  | processQuery _ _ => "processQuery"
  | format _ _ => "format"
  end.

(** The text a call shows to the user, for the calls that show one. *)
Definition call_message {T} (c : callE T) : option string :=
  match c with
  | showErrorMessage m | showInformationMessage m => Some m
  | _ => None
  end.

Fixpoint exec {R} (fuel : nat) (host : forall T, callE T -> T)
    (t : itree callE R) : list (string * option string) * option R :=
  match fuel with
  | O => ([], None)
  | S fuel' =>
      match observe t with
      | RetF r => ([], Some r)
      | TauF t' => exec fuel' host t'
      | VisF e k =>
          let (calls, r) := exec fuel' host (k (host _ e)) in
          ((call_name e, call_message e) :: calls, r)
      end
  end.

End WithNumber.

Arguments ProcessQueryResult num : clear implicits.
Arguments callE num : clear implicits.

End JsonPathExtension.

(** ** The calls of a method, with their arguments

    [exec] above keeps the name of a call and the message it shows.  [calls]
    keeps the whole call: the method run against a host gives the list of
    the calls it makes, each with its arguments, and its result. *)

Module Calls.
Import JsonPathExtension.

Section WithNumber.
Context {num : Type} `{JsNumber num}.

(** A call on a collaborator, whatever the type of its answer. *)
Definition Call : Type := {T : Type & callE num T}.

Definition call {T} (c : callE num T) : Call := existT _ T c.

Fixpoint calls {R} (fuel : nat) (host : forall T, callE num T -> T)
    (t : itree (callE num) R) : list Call * option R :=
  match fuel with
  | O => ([], None)
  | S fuel' =>
      match observe t with
      | RetF r => ([], Some r)
      | TauF t' => calls fuel' host t'
      | VisF e k =>
          let (made, r) := calls fuel' host (k (host _ e)) in
          (call e :: made, r)
      end
  end.

(** The item of the quick pick that [selectSavedQuery] makes of a saved
    query. *)
Definition quickPick_of (q : SavedQuery) : QuickPickItem :=
  {| label := title q; detail := query q; description := "" |}.

(** What [handleError] reports for an answer. *)
Definition report (r : ProcessQueryResult num) : list Call :=
  match status r with
  | InvalidQuery => [call (showErrorMessage InvalidJsonPathErrorMsg)]
  | NoData => [call (showInformationMessage NoResultsFoundMsg)]
  | Error => [call (consoleError (result r))]
  | Success => []
  end.

(** The three calls of [showContent] for a text, a flag and a column, on a
    host. *)
Definition shown (host : forall T, callE num T -> T) (content : string)
    (createJson : bool) (column : Z) : list Call :=
  let uri := DocProvider.encodeContent content in
  let doc := host _ (openTextDocument uri) in
  [call (openTextDocument uri);
   call (setTextDocumentLanguage doc
           (if createJson then "json" else "plaintext"));
   call (showTextDocument doc column)].

(** The saved query that [selectSavedQuery] returns for a pick: the first
    one whose query text is the detail of the pick, none without a pick. *)
Definition selected (queries : list SavedQuery) (pick : option QuickPickItem)
    : option SavedQuery :=
  match pick with
  | None => None
  | Some p => List.find (fun sq => String.eqb (query sq) (detail p)) queries
  end.

End WithNumber.
End Calls.

(** ** Measures of a rendered text

    The line breaks of a text, and the ones the shape of a value asks for
    when it is written indented: none for a scalar or an empty container;
    otherwise one before each element or member, one before the closing
    bracket, and those of the elements or members themselves. *)

Fixpoint count_nl (s : string) : nat :=
  match s with
  | "" => 0
  | String c s' => (if (c =? Chars.newline)%char then 1 else 0) + count_nl s'
  end.

Fixpoint line_breaks {num} (v : value num) : nat :=
  match v with
  | JArray elements =>
      match elements with
      | [] => 0
      | _ => S (List.length elements)
             + list_sum (List.map line_breaks elements)
      end
  | JObject members =>
      match members with
      | [] => 0
      | _ => S (List.length members)
             + list_sum (List.map (fun kv => line_breaks (snd kv)) members)
      end
  | _ => 0
  end.

(** The line breaks a match brings into the plain text by itself: those of
    a string match, which is written raw. *)
Definition string_breaks {num} (v : value num) : nat :=
  match v with
  | JString s => count_nl s
  | _ => 0
  end.

(** [typeof result === 'string'] *)
Definition is_string {num} (v : value num) : bool :=
  match v with
  | JString _ => true
  | _ => false
  end.

(** ** The query engine

    The engine's file (jsonPathQueryEngine.ts) is not among the sources.
    Its model follows the specification: section 3 for the data, section
    4.1 for parsing and evaluation, section 9 for the work-list of the
    recursive descent. *)

Module QueryEngine.

(** Modelled from the spec: the comparison operators of a filter
    predicate, [==], [!=], [<], [<=], [>], [>=]. *)
Variant CompareOp : Set := OpEq | OpNe | OpLt | OpLe | OpGt | OpGe.

Section WithNumber.
Context {num : Type} `{JsNumber num}.

(** Modelled from the spec: the literal a filter compares a field with. *)
Variant Literal : Type :=
| LNumber (n : num)
| LString (s : string)
| LBool (b : bool)
| LNull.

(** Modelled from the spec: the restricted grammar of filter predicates,
    [@.field OP literal] combined with [&&] and [||]. *)
Inductive Predicate : Type :=
| Compare (field : string) (op : CompareOp) (literal : Literal)
| And (l r : Predicate)
| Or (l r : Predicate).

(** Modelled from the spec: the segments of the engine's path expressions
    (section 3; jsonPathQueryEngine.ts is missing from the sources).
    A slice keeps the three optional parts of [start:end:step]. *)
Variant Segment : Type :=
| Field (name : string)
| FieldWildcard
| Index (position : Z)
| Slice (start stop step : option Z)
| ArrayWildcard
| Descent
| Filter (predicate : Predicate).

(** Modelled from the spec: a path expression is the ordered sequence of
    its segments. *)
Definition PathExpression : Type := list Segment.

(** Modelled from the spec: the classified outcome of an evaluation, as
    section 3 names it (the engine's file is missing from the sources). *)
Variant EvaluationResult : Type :=
| Success (matches : list (value num))
| InvalidQuery
| EngineError (diagnostic : string).

(** *** Nodes *)

(** Modelled from the spec: the structural position of a node, which (not
    the value) tells two matches apart: the child ordinals that lead to the
    node from the root. *)
Definition Position : Set := list nat.

(** Modelled from the spec: a candidate, a value of the document with its
    position. *)
Definition Node : Type := Position * value num.

(** Modelled from the spec: the immediate children of a value, array
    elements or mapping values, in structural order. *)
Definition children (v : value num) : list (value num) :=
  match v with
  | JArray elements => elements
  | JObject members => List.map snd members
  | _ => []
  end.

(** Modelled from the spec: the children with their ordinals, counted
    from [i]. *)
Fixpoint enumerate_from {A} (i : nat) (l : list A) : list (nat * A) :=
  match l with
  | [] => []
  | x :: l' => (i, x) :: enumerate_from (S i) l'
  end.

(** Modelled from the spec: the immediate children of a node, as nodes,
    in structural order. *)
Definition child_nodes (n : Node) : list Node :=
  List.map (fun ic => ((fst n ++ [fst ic])%list, snd ic))
    (enumerate_from 0 (children (snd n))).

(** Modelled from the spec: the number N of nodes of a document. *)
Fixpoint node_count (v : value num) : nat :=
  match v with
  | JArray elements => S (list_sum (List.map node_count elements))
  | JObject members =>
      S (list_sum (List.map (fun kv => node_count (snd kv)) members))
  | _ => 1
  end.

(** Modelled from the spec: the nodes the work-list still has to emit,
    the measure that makes the descent end on a finite tree. *)
Definition stack_weight (stack : list Node) : nat :=
  list_sum (List.map (fun n => node_count (snd n)) stack).

Lemma node_count_children v :
  node_count v = S (list_sum (List.map node_count (children v))).
Proof.
  destruct v as [| | | |elements|members]; try reflexivity.
  simpl. now rewrite List.map_map.
Qed.

Lemma map_snd_enumerate_from {A} (l : list A) i :
  List.map snd (enumerate_from i l) = l.
Proof.
  revert i. induction l as [|x l IH]; intros i; simpl;
    [reflexivity | now rewrite IH].
Qed.

Lemma stack_weight_child_nodes n :
  node_count (snd n) = S (stack_weight (child_nodes n)).
Proof.
  unfold stack_weight, child_nodes. rewrite List.map_map. cbn [snd].
  rewrite <- (List.map_map snd node_count), map_snd_enumerate_from.
  apply node_count_children.
Qed.

Lemma stack_weight_app s1 s2 :
  stack_weight (s1 ++ s2) = stack_weight s1 + stack_weight s2.
Proof.
  unfold stack_weight. rewrite List.map_app. apply list_sum_app.
Qed.

(** Modelled from the spec: the engine's recursive descent
    (jsonPathQueryEngine.ts is missing from the sources), with an explicit
    work-list.  The node on top of the stack is emitted and replaced by its
    children, first child on top; the loop ends when the stack is empty. *)
Equations? descend_loop (stack : list Node) : list Node
  by wf (stack_weight stack) lt :=
descend_loop [] := [];
descend_loop (n :: rest) := n :: descend_loop (child_nodes n ++ rest)%list.
Proof.
  rewrite stack_weight_app. unfold stack_weight at 3. cbn [List.map list_sum].
  change (list_sum (?a :: ?l)) with (a + list_sum l).
  fold (stack_weight rest).
  rewrite (stack_weight_child_nodes n). lia.
Qed.

(** Modelled from the spec: recursive descent from one candidate: the
    candidate itself and every descendant. *)
Definition descend (n : Node) : list Node := descend_loop [n].

(** Modelled from the spec: the pre-order listing of a document in the
    specification's words, a node before its children and the children in
    structural order.  The work-list above is compared with it. *)
Fixpoint preorder (p : Position) (v : value num) : list Node :=
  (p, v) ::
  match v with
  | JArray elements =>
      (fix subtrees (i : nat) (l : list (value num)) : list Node :=
         match l with
         | [] => []
         | c :: l' => preorder (p ++ [i]) c ++ subtrees (S i) l'
         end%list) 0 elements
  | JObject members =>
      (fix subtrees (i : nat) (l : list (string * value num)) : list Node :=
         match l with
         | [] => []
         | kv :: l' => preorder (p ++ [i]) (snd kv) ++ subtrees (S i) l'
         end%list) 0 members
  | _ => []
  end.

(** Modelled from the spec: the node reached from [v] by repeated child
    traversal along a position, when there is one. *)
Fixpoint lookup (v : value num) (s : Position) : option (value num) :=
  match s with
  | [] => Some v
  | i :: s' =>
      match List.nth_error (children v) i with
      | Some c => lookup c s'
      | None => None
      end
  end.

(** *** Segments *)

(** Modelled from the spec: the first member of a mapping under a key,
    with its ordinal counted from [i]. *)
Fixpoint find_member (name : string) (i : nat)
    (members : list (string * value num)) : option (nat * value num) :=
  match members with
  | [] => None
  | (k, v) :: rest =>
      if String.eqb k name then Some (i, v) else find_member name (S i) rest
  end.

(** Modelled from the spec: a mapping that contains the key emits its
    value; anything else contributes nothing. *)
Definition field_access (name : string) (n : Node) : list Node :=
  match snd n with
  | JObject members =>
      match find_member name 0 members with
      | Some (i, v) => [((fst n ++ [i])%list, v)]
      | None => []
      end
  | _ => []
  end.

(** Modelled from the spec: a negative index counts from the end; an index
    out of range contributes nothing. *)
Definition index_access (position : Z) (n : Node) : list Node :=
  match snd n with
  | JArray elements =>
      let len := Z.of_nat (List.length elements) in
      let i := if (position <? 0)%Z then (len + position)%Z else position in
      match List.nth_error elements (Z.to_nat i) with
      | Some v => if (0 <=? i)%Z then [((fst n ++ [Z.to_nat i])%list, v)] else []
      | None => []
      end
  | _ => []
  end.

(** Modelled from the spec: Python's slice bounds for a sequence of length
    [len]: defaults by the sign of the step, negative bounds counted from
    the end, then clamped. *)
Definition slice_bounds (len : Z) (start stop : option Z) (step : Z) : Z * Z :=
  if (0 <? step)%Z then
    let adjust x := if (x <? 0)%Z then Z.max 0 (x + len) else Z.min len x in
    (match start with Some x => adjust x | None => 0 end,
     match stop with Some x => adjust x | None => len end)%Z
  else
    let adjust x :=
      if (x <? 0)%Z then Z.max (-1) (x + len) else Z.min (len - 1) x in
    (match start with Some x => adjust x | None => len - 1 end,
     match stop with Some x => adjust x | None => -1 end)%Z.

(** Modelled from the spec: the indices from [i] (inclusive) to [stop]
    (exclusive) by [step]. *)
Fixpoint slice_indices (fuel : nat) (i stop step : Z) : list nat :=
  match fuel with
  | O => []
  | S fuel' =>
      if (if (0 <? step)%Z then (i <? stop)%Z else (stop <? i)%Z)
      then Z.to_nat i :: slice_indices fuel' (i + step)%Z stop step
      else []
  end.

(** Modelled from the spec: slices apply to sequences only.  A step of
    zero selects nothing. *)
Definition slice_access (start stop step : option Z) (n : Node) : list Node :=
  match snd n with
  | JArray elements =>
      let step := match step with Some s => s | None => 1%Z end in
      if (step =? 0)%Z then []
      else
        let len := List.length elements in
        let (from, to) := slice_bounds (Z.of_nat len) start stop step in
        List.flat_map
          (fun i => match List.nth_error elements i with
                    | Some v => [((fst n ++ [i])%list, v)]
                    | None => []
                    end)
          (slice_indices len from to step)
  | _ => []
  end.

(** Modelled from the spec: what an operator makes of the outcome of a
    comparison. *)
Definition holds (op : CompareOp) (c : comparison) : bool :=
  match op, c with
  | OpEq, Eq | OpNe, Lt | OpNe, Gt | OpLt, Lt | OpLe, Lt | OpLe, Eq
  | OpGt, Gt | OpGe, Gt | OpGe, Eq => true
  | _, _ => false
  end.

(** Modelled from the spec: a comparison between values of different
    types is false, never an error.  Booleans and null are only equal or
    different. *)
Definition compare_literal (op : CompareOp) (v : value num) (l : Literal)
    : bool :=
  match v, l with
  | JNumber a, LNumber b => holds op (num_compare a b)
  | JString a, LString b => holds op (String.compare a b)
  | JBool a, LBool b =>
      match op with
      | OpEq => Bool.eqb a b
      | OpNe => negb (Bool.eqb a b)
      | _ => false
      end
  | JNull, LNull => match op with OpEq => true | _ => false end
  | _, _ => false
  end.

(** Modelled from the spec: the predicate is evaluated against the
    candidate's own fields. *)
Fixpoint satisfies (p : Predicate) (v : value num) : bool :=
  match p with
  | Compare field op literal =>
      match v with
      | JObject members =>
          match find_member field 0 members with
          | Some (_, x) => compare_literal op x literal
          | None => false
          end
      | _ => false
      end
  | And l r => satisfies l v && satisfies r v
  | Or l r => satisfies l v || satisfies r v
  end.

(** Modelled from the spec: a candidate is kept when the predicate holds
    of its own fields.  A sequence stands for its elements: in the
    specification's examples the filter after [$.items] keeps or excludes
    the items. *)
Definition filter_access (predicate : Predicate) (n : Node) : list Node :=
  match snd n with
  | JArray _ =>
      List.filter (fun item => satisfies predicate (snd item)) (child_nodes n)
  | _ => if satisfies predicate (snd n) then [n] else []
  end.

(** Modelled from the spec: one segment applied to one candidate. *)
Definition apply_segment (segment : Segment) (n : Node) : list Node :=
  match segment with
  | Field name => field_access name n
  | FieldWildcard | ArrayWildcard => child_nodes n
  | Index position => index_access position n
  | Slice start stop step => slice_access start stop step n
  | Descent => descend n
  | Filter predicate => filter_access predicate n
  end.

(** Modelled from the spec: the engine's evaluation (its file is missing
    from the sources): the candidate set starts as the root; every
    segment, in order, turns the candidate set into the next one; what
    survives the last segment is the Match Set, in discovery order. *)
Fixpoint walk (path : PathExpression) (candidates : list Node) : list Node :=
  match path with
  | [] => candidates
  | segment :: path' =>
      walk path' (List.flat_map (apply_segment segment) candidates)
  end.

(** Modelled from the spec: the Match Set of a path expression on a
    document, the values of the surviving candidates. *)
Definition matches_of (path : PathExpression) (root : value num)
    : list (value num) :=
  List.map snd (walk path [([], root)]).

(** *** Parsing a query

    The grammar of section 4.1: the root anchor, dot-child access, bracket
    child access with quoted or unquoted names, numeric indices, slices,
    wildcards, recursive descent and filter predicates.  [None] is a
    syntactic violation. *)

(** Modelled from the spec: the digits of a numeric index. *)
Definition is_digit (c : ascii) : bool :=
  let n := N_of_ascii c in ((48 <=? n) && (n <=? 57))%N.

(** Modelled from the spec: the characters of an unquoted name: letters,
    digits and the underscore. *)
Definition is_name_char (c : ascii) : bool :=
  let n := N_of_ascii c in
  (is_digit c || ((65 <=? n) && (n <=? 90)) || ((97 <=? n) && (n <=? 122))
   || (n =? 95))%N.

(** Modelled from the spec: the longest prefix of characters that
    satisfy [p], and the rest. *)
Fixpoint take_while (p : ascii -> bool) (s : string) : string * string :=
  match s with
  | "" => ("", "")
  | String c s' =>
      if p c then let (a, b) := take_while p s' in (String c a, b)
      else ("", s)
  end.

(** Modelled from the spec: blanks inside brackets are skipped. *)
Fixpoint skip_spaces (s : string) : string :=
  match s with
  | String c s' => if (c =? " ")%char then skip_spaces s' else s
  | "" => ""
  end.

(** Modelled from the spec: the value of a run of decimal digits. *)
Fixpoint digits_value (acc : Z) (digits : string) : Z :=
  match digits with
  | "" => acc
  | String c ds =>
      digits_value (10 * acc + Z.of_N (N_of_ascii c - 48))%Z ds
  end.

(** Modelled from the spec: an integer, an optional minus sign and at
    least one digit. *)
Definition read_int (s : string) : option (Z * string) :=
  let (negative, s1) :=
    match s with
    | String c s' => if (c =? "-")%char then (true, s') else (false, s)
    | "" => (false, s)
    end in
  match take_while is_digit s1 with
  | ("", _) => None
  | (ds, rest) =>
      let v := digits_value 0 ds in
      Some (if negative then (- v)%Z else v, rest)
  end.

(** Modelled from the spec: an optional part of a slice; nothing is read
    when no integer stands there. *)
Definition read_opt_int (s : string) : option Z * string :=
  match read_int s with
  | Some (v, rest) => (Some v, rest)
  | None => (None, s)
  end.

(** Modelled from the spec: a name of at least one character (an empty
    segment is a violation). *)
Definition read_name (s : string) : option (string * string) :=
  match take_while is_name_char s with
  | ("", _) => None
  | (name, rest) => Some (name, rest)
  end.

(** Modelled from the spec: a quoted name, the characters up to the quote
    [q], and the text after it. *)
Fixpoint read_quoted (q : ascii) (s : string) : option (string * string) :=
  match s with
  | "" => None
  | String c s' =>
      if (c =? q)%char then Some ("", s')
      else match read_quoted q s' with
           | Some (body, rest) => Some (String c body, rest)
           | None => None
           end
  end.

(** Modelled from the spec: names and string literals are quoted with
    single or double quotes. *)
Definition is_quote (c : ascii) : bool := (c =? "'")%char || (c =? dquote)%char.

(** Modelled from the spec: one of the six operators; anything else is an
    unknown operator. *)
Definition read_op (s : string) : option (CompareOp * string) :=
  match JSON.expect "==" s, JSON.expect "!=" s,
        JSON.expect "<=" s, JSON.expect ">=" s,
        JSON.expect "<" s, JSON.expect ">" s with
  | Some r, _, _, _, _, _ => Some (OpEq, r)
  | _, Some r, _, _, _, _ => Some (OpNe, r)
  | _, _, Some r, _, _, _ => Some (OpLe, r)
  | _, _, _, Some r, _, _ => Some (OpGe, r)
  | _, _, _, _, Some r, _ => Some (OpLt, r)
  | _, _, _, _, _, Some r => Some (OpGt, r)
  | _, _, _, _, _, _ => None
  end.

(** Modelled from the spec: a literal, a quoted string, a number, true,
    false or null. *)
Definition read_literal (s : string) : option (Literal * string) :=
  match s with
  | "" => None
  | String c s' =>
      if is_quote c then
        match read_quoted c s' with
        | Some (body, rest) => Some (LString body, rest)
        | None => None
        end
      else if num_start c then
        match num_read s with
        | Some (n, rest) => Some (LNumber n, rest)
        | None => None
        end
      else
        match JSON.expect "true" s, JSON.expect "false" s,
              JSON.expect "null" s with
        | Some r, _, _ => Some (LBool true, r)
        | _, Some r, _ => Some (LBool false, r)
        | _, _, Some r => Some (LNull, r)
        | _, _, _ => None
        end
  end.

(** Modelled from the spec: [@.field OP literal]. *)
Definition read_comparison (s : string) : option (Predicate * string) :=
  match JSON.expect "@." (skip_spaces s) with
  | None => None
  | Some s1 =>
      match read_name s1 with
      | None => None
      | Some (field, s2) =>
          match read_op (skip_spaces s2) with
          | None => None
          | Some (op, s3) =>
              match read_literal (skip_spaces s3) with
              | None => None
              | Some (literal, s4) => Some (Compare field op literal, s4)
              end
          end
      end
  end.

(** Modelled from the spec: comparisons joined by [&&]; [fuel] bounds the
    number of them. *)
Fixpoint read_conjunction (fuel : nat) (s : string)
    : option (Predicate * string) :=
  match fuel with
  | O => None
  | S fuel' =>
      match read_comparison s with
      | None => None
      | Some (l, s1) =>
          match JSON.expect "&&" (skip_spaces s1) with
          | Some s2 =>
              match read_conjunction fuel' s2 with
              | Some (r, s3) => Some (And l r, s3)
              | None => None
              end
          | None => Some (l, s1)
          end
      end
  end.

(** Modelled from the spec: conjunctions joined by [||]. *)
Fixpoint read_predicate (fuel : nat) (s : string)
    : option (Predicate * string) :=
  match fuel with
  | O => None
  | S fuel' =>
      match read_conjunction (String.length s) s with
      | None => None
      | Some (l, s1) =>
          match JSON.expect "||" (skip_spaces s1) with
          | Some s2 =>
              match read_predicate fuel' s2 with
              | Some (r, s3) => Some (Or l r, s3)
              | None => None
              end
          | None => Some (l, s1)
          end
      end
  end.

(** Modelled from the spec: the closing bracket of a bracket segment (an
    unbalanced bracket is a violation). *)
Definition close_bracket (segment : Segment) (s : string)
    : option (Segment * string) :=
  match JSON.expect "]" (skip_spaces s) with
  | Some rest => Some (segment, rest)
  | None => None
  end.

(** Modelled from the spec: what stands between the brackets: a wildcard, a
    filter, a quoted name, an index, a slice, or an unquoted name. *)
Definition read_bracket (s : string) : option (Segment * string) :=
  let s := skip_spaces s in
  match JSON.expect "*" s, JSON.expect "?(" s with
  | Some rest, _ => close_bracket ArrayWildcard rest
  | _, Some rest =>
      match read_predicate (String.length rest) rest with
      | Some (p, rest1) =>
          match JSON.expect ")" (skip_spaces rest1) with
          | Some rest2 => close_bracket (Filter p) rest2
          | None => None
          end
      | None => None
      end
  | None, None =>
      match s with
      | "" => None
      | String c s' =>
          if is_quote c then
            match read_quoted c s' with
            | Some (name, rest) => close_bracket (Field name) rest
            | None => None
            end
          else
            let (start, s1) := read_opt_int s in
            match JSON.expect ":" s1 with
            | Some s2 =>
                let (stop, s3) := read_opt_int s2 in
                match JSON.expect ":" s3 with
                | Some s4 =>
                    let (step, s5) := read_opt_int s4 in
                    close_bracket (Slice start stop step) s5
                | None => close_bracket (Slice start stop None) s3
                end
            | None =>
                match start with
                | Some position => close_bracket (Index position) s1
                | None =>
                    match read_name s with
                    | Some (name, rest) => close_bracket (Field name) rest
                    | None => None
                    end
                end
            end
      end
  end.

(** Modelled from the spec: a dot-child, a wildcard or a name. *)
Definition read_child (s : string) : option (Segment * string) :=
  match JSON.expect "*" s with
  | Some rest => Some (FieldWildcard, rest)
  | None =>
      match read_name s with
      | Some (name, rest) => Some (Field name, rest)
      | None => None
      end
  end.

(** Modelled from the spec: the segments after the root anchor, up to the
    end of the query. *)
Fixpoint read_segments (fuel : nat) (s : string) : option PathExpression :=
  match fuel with
  | O => None
  | S fuel' =>
      let continue (r : option (Segment * string)) (prefix : list Segment) :=
        match r with
        | Some (segment, rest) =>
            option_map (fun path => (prefix ++ segment :: path)%list)
              (read_segments fuel' rest)
        | None => None
        end in
      match s with
      | "" => Some []
      | _ =>
          match JSON.expect ".." s, JSON.expect "." s, JSON.expect "[" s with
          | Some rest, _, _ =>
              match JSON.expect "[" rest with
              | Some inner => continue (read_bracket inner) [Descent]
              | None => continue (read_child rest) [Descent]
              end
          | None, Some rest, _ => continue (read_child rest) []
          | None, None, Some inner => continue (read_bracket inner) []
          | None, None, None => None
          end
      end
  end.

(** Modelled from the spec: the engine's parser (jsonPathQueryEngine.ts
    is missing from the sources): a query is the root anchor followed by
    its segments. *)
Definition parse (query : string) : option PathExpression :=
  match JSON.expect "$" query with
  | Some rest => read_segments (S (String.length rest)) rest
  | None => None
  end.

(** Modelled from the spec: [evaluate(query, document)], the sole entry
    point of the engine, whose file (jsonPathQueryEngine.ts) is missing
    from the sources.  A query that does not parse is an InvalidQuery; one
    that parses is a Success with its matches, none included. *)
Definition evaluate (query : string) (document : value num)
    : EvaluationResult :=
  match parse query with
  | None => InvalidQuery
  | Some path => Success (matches_of path document)
  end.

End WithNumber.

Arguments Segment num : clear implicits.
Arguments PathExpression num : clear implicits.
Arguments EvaluationResult num : clear implicits.
Arguments Node num : clear implicits.

End QueryEngine.

(** * The words of the specification, and what the proofs measure *)

Section Renderings.
Import JSON.
Context {num : Type} `{JsNumber num}.

(** The compact JSON text of a value: no white space between tokens. *)
Fixpoint spec_compact_json (v : value num) : string :=
  match v with
  | JNull => "null"
  | JBool b => if b then "true" else "false"
  | JNumber n => num_toString n
  | JString s => QuoteJSONString s
  | JArray elements =>
      "[" ++ Lodash.Array_join "," (List.map spec_compact_json elements) ++ "]"
  | JObject members =>
      "{" ++ Lodash.Array_join ","
               (List.map (fun kv => QuoteJSONString (fst kv) ++ ":"
                                    ++ spec_compact_json (snd kv)) members)
          ++ "}"
  end.

(** The indented JSON text of a value at nesting [depth]: every element
    of a non-empty array and every member of a non-empty object on a line
    of its own, two spaces deeper than the brackets that hold it, in the
    order of the value. *)
Fixpoint spec_indented_json (depth : nat) (v : value num) : string :=
  match v with
  | JNull => "null"
  | JBool b => if b then "true" else "false"
  | JNumber n => num_toString n
  | JString s => QuoteJSONString s
  | JArray [] => "[]"
  | JArray elements =>
      "[" ++ nl
      ++ Lodash.Array_join ("," ++ nl)
           (List.map (fun e => spaces (2 * S depth) ++ spec_indented_json (S depth) e)
              elements)
      ++ nl ++ spaces (2 * depth) ++ "]"
  | JObject [] => "{}"
  | JObject members =>
      "{" ++ nl
      ++ Lodash.Array_join ("," ++ nl)
           (List.map (fun kv => spaces (2 * S depth) ++ QuoteJSONString (fst kv)
                                ++ ": " ++ spec_indented_json (S depth) (snd kv))
              members)
      ++ nl ++ spaces (2 * depth) ++ "}"
  end.

(** A match as plain text, in the words of the specification: a string as
    its raw text, a number as its decimal text, anything else as its
    compact JSON text. *)
Definition spec_plain_text (v : value num) : string :=
  match v with
  | JString s => s
  | JNumber n => num_toString n
  | JBool _ | JNull | JArray _ | JObject _ => spec_compact_json v
  end.

End Renderings.

(** A value that is not an object in JavaScript's sense: a number, a
    string, a boolean or null. *)
Definition primitive {num} (v : value num) : Prop :=
  match v with
  | JNumber _ | JString _ | JBool _ | JNull => True
  | JArray _ | JObject _ => False
  end.


Section Traversal.
Import QueryEngine.
Context {num : Type} `{JsNumber num}.

(** The subtree of a node, at its position. *)
Definition subtree (n : Node num) : list (Node num) := preorder (fst n) (snd n).

Definition child_at (p : Position) (ic : nat * value num) : Node num :=
  ((p ++ [fst ic])%list, snd ic).

(** The positions of a list of nodes. *)
Definition positions (nodes : list (Node num)) : list Position :=
  List.map fst nodes.

End Traversal.

(** The number of nested calls the reader makes on a value's text. *)
Fixpoint size {num} (v : value num) : nat :=
  match v with
  | JArray elements => S (list_sum (List.map (fun e => S (size e)) elements))
  | JObject members =>
      S (list_sum (List.map (fun kv => S (size (snd kv))) members))
  | _ => 1
  end.

(** First characters of a value's text. *)
Definition value_start (c : ascii) : bool :=
  num_start c
  || (c =? dquote)%char || (c =? "[")%char || (c =? "{")%char
  || (c =? "t")%char || (c =? "f")%char || (c =? "n")%char.

(** What stands between a bracket or a comma and the next part: nothing
    in the compact form, a line break and the indentation otherwise. *)
Definition lead (gap indent : string) : string :=
  match gap with
  | "" => ""
  | _ => nl ++ indent
  end.

(** The blank after a member's colon. *)
Definition colon_space (gap : string) : string :=
  match gap with
  | "" => ""
  | _ => " "
  end.

(** * Examples *)

Example format_plain_example :
  ResultFormatter.format
    [JNumber 42%Z; JString "x"; JObject [("a", JNumber 1%Z)]] false
  = "42" ++ nl ++ "x" ++ nl ++ "{" ++ quote ++ "a" ++ quote ++ ":1}".
Proof. reflexivity. Qed.

Example format_json_example :
  ResultFormatter.format
    [JNumber 42%Z; JString "x"; JObject [("a", JNumber 1%Z)]; JArray []] true
  = "[" ++ nl ++ "  42," ++ nl ++ "  " ++ quote ++ "x" ++ quote ++ "," ++ nl
    ++ "  {" ++ nl ++ "    " ++ quote ++ "a" ++ quote ++ ": 1" ++ nl
    ++ "  }," ++ nl ++ "  []" ++ nl ++ "]".
Proof. reflexivity. Qed.

Example parse_example :
  JSON.parse ("{" ++ quote ++ "a" ++ quote ++ ": [1, -20,true , null ],"
              ++ quote ++ "b\n" ++ quote ++ ":{} } ")
  = Some (JObject [("a", JArray [JNumber 1%Z; JNumber (-20)%Z; JBool true; JNull]);
                   ("b" ++ nl, JObject [])]).
Proof. reflexivity. Qed.

Example parse_rejects :
  JSON.parse (num := Z) "[1,]" = None /\ JSON.parse (num := Z) "01" = None
  /\ JSON.parse (num := Z) "" = None /\ JSON.parse (num := Z) "[1" = None.
Proof. repeat split; reflexivity. Qed.

Example parse_query_examples :
  QueryEngine.parse (num := Z) "$.a.b[0]"
  = Some [QueryEngine.Field "a"; QueryEngine.Field "b"; QueryEngine.Index 0]
  /\ QueryEngine.parse (num := Z) "$..name"
     = Some [QueryEngine.Descent; QueryEngine.Field "name"]
  /\ QueryEngine.parse (num := Z) "$..*"
     = Some [QueryEngine.Descent; QueryEngine.FieldWildcard]
  /\ QueryEngine.parse (num := Z) "$.items[?(@.price<10)]"
     = Some [QueryEngine.Field "items";
             QueryEngine.Filter
               (QueryEngine.Compare "price" QueryEngine.OpLt
                  (QueryEngine.LNumber 10%Z))]
  /\ QueryEngine.parse (num := Z) "$['a'][1:-1:2][*]"
     = Some [QueryEngine.Field "a";
             QueryEngine.Slice (Some 1%Z) (Some (-1)%Z) (Some 2%Z);
             QueryEngine.ArrayWildcard]
  /\ QueryEngine.parse (num := Z) "$.a[" = None
  /\ QueryEngine.parse (num := Z) "$." = None
  /\ QueryEngine.parse (num := Z) "$.a[?(@.b ~ 1)]" = None
  /\ QueryEngine.parse (num := Z) "" = None
  /\ QueryEngine.parse (num := Z) "   " = None.
Proof. repeat split; reflexivity. Qed.

Example evaluate_examples :
  let doc := JObject [("items", JArray [JObject [("price", JNumber 5%Z)];
                                        JObject [("price", JNumber 15%Z)]])] in
  QueryEngine.evaluate "$.items[*].price" doc
  = QueryEngine.Success [JNumber 5%Z; JNumber 15%Z]
  /\ QueryEngine.evaluate "$.items[-1]" doc
     = QueryEngine.Success [JObject [("price", JNumber 15%Z)]]
  /\ QueryEngine.evaluate "$.items[?(@.price>10)]" doc
     = QueryEngine.Success [JObject [("price", JNumber 15%Z)]]
  /\ QueryEngine.evaluate "$.items[?(@.price>10 || @.price == 5)]" doc
     = QueryEngine.Success [JObject [("price", JNumber 5%Z)];
                            JObject [("price", JNumber 15%Z)]]
  /\ QueryEngine.evaluate "$.items[?(@.price>'a')]" doc
     = QueryEngine.Success []
  /\ QueryEngine.evaluate "$.items[::-1]" doc
     = QueryEngine.Success [JObject [("price", JNumber 15%Z)];
                            JObject [("price", JNumber 5%Z)]]
  /\ QueryEngine.evaluate "$..*" doc
     = QueryEngine.Success
         [JArray [JObject [("price", JNumber 5%Z)];
                  JObject [("price", JNumber 15%Z)]];
          JObject [("price", JNumber 5%Z)];
          JObject [("price", JNumber 15%Z)];
          JNumber 5%Z; JNumber 15%Z]
  /\ QueryEngine.evaluate "$..price" doc
     = QueryEngine.Success [JNumber 5%Z; JNumber 15%Z]
  /\ QueryEngine.evaluate "$.nothing" doc = QueryEngine.Success []
  /\ QueryEngine.evaluate "$.items[" doc = QueryEngine.InvalidQuery.
Proof. repeat split; reflexivity. Qed.

(** The specification's end-to-end example: the items dearer than 10,
    found by the model of the engine and written by the formatter. *)
Example end_to_end :
  let doc := JObject [("items", JArray [JObject [("price", JNumber 5%Z)];
                                        JObject [("price", JNumber 15%Z)]])] in
  match QueryEngine.evaluate "$.items[?(@.price>10)]" doc with
  | QueryEngine.Success matches =>
      matches = [JObject [("price", JNumber 15%Z)]]
      /\ ResultFormatter.format matches true
         = "[" ++ nl ++ "  {" ++ nl
           ++ "    " ++ quote ++ "price" ++ quote ++ ": 15" ++ nl
           ++ "  }" ++ nl ++ "]"
  | _ => False
  end.
Proof. split; reflexivity. Qed.

(** A host for the examples: the input box answers [input], the engine
    answers [answer], the formatter is [ResultFormatter.format], and no
    saved query is configured. *)
Definition scripted_host (input : option string)
    (answer : JsonPathExtension.ProcessQueryResult Z)
    : forall T, JsonPathExtension.callE Z T -> T :=
  fun T c =>
    match c in JsonPathExtension.callE _ T return T with
    | JsonPathExtension.showErrorMessage _ => tt
    | JsonPathExtension.showInformationMessage _ => tt
    | JsonPathExtension.showInputBox _ _ => input
    | JsonPathExtension.getConfiguration _ _ => None
    | JsonPathExtension.showQuickPick _ _ => None
    | JsonPathExtension.openTextDocument uri =>
        {| JsonPathExtension.document_uri := uri |}
    | JsonPathExtension.showTextDocument _ _ => tt
    | JsonPathExtension.setTextDocumentLanguage _ _ => tt
    | JsonPathExtension.consoleError _ => tt
    | JsonPathExtension.processQuery _ _ => answer
    | JsonPathExtension.format results createJson =>
        ResultFormatter.format results createJson
    end.

Definition sample_editor : JsonPathExtension.TextEditor :=
  {| JsonPathExtension.document_getText :=
       "{" ++ quote ++ "a" ++ quote ++ ": 1}";
     JsonPathExtension.viewColumn := Some 1%Z |}.

(** A host with saved queries: the configuration answers [queries], the
    quick pick answers [pick], the engine answers [answer]. *)
Definition saved_host (queries : option (list JsonPathExtension.SavedQuery))
    (pick : option JsonPathExtension.QuickPickItem)
    (answer : JsonPathExtension.ProcessQueryResult Z)
    : forall T, JsonPathExtension.callE Z T -> T :=
  fun T c =>
    match c in JsonPathExtension.callE _ T return T with
    | JsonPathExtension.showErrorMessage _ => tt
    | JsonPathExtension.showInformationMessage _ => tt
    | JsonPathExtension.showInputBox _ _ => None
    | JsonPathExtension.getConfiguration _ _ => queries
    | JsonPathExtension.showQuickPick _ _ => pick
    | JsonPathExtension.openTextDocument uri =>
        {| JsonPathExtension.document_uri := uri |}
    | JsonPathExtension.showTextDocument _ _ => tt
    | JsonPathExtension.setTextDocumentLanguage _ _ => tt
    | JsonPathExtension.consoleError _ => tt
    | JsonPathExtension.processQuery _ _ => answer
    | JsonPathExtension.format results createJson =>
        ResultFormatter.format results createJson
    end.

(** Two saved queries with the same query text and different outputs, and
    a third one. *)
Definition a_as_json : JsonPathExtension.SavedQuery :=
  {| JsonPathExtension.title := "a as json";
     JsonPathExtension.query := "$.a";
     JsonPathExtension.output := JsonPathExtension.Json |}.

Definition a_as_text : JsonPathExtension.SavedQuery :=
  {| JsonPathExtension.title := "a as text";
     JsonPathExtension.query := "$.a";
     JsonPathExtension.output := JsonPathExtension.Text |}.

Definition b_as_text : JsonPathExtension.SavedQuery :=
  {| JsonPathExtension.title := "b as text";
     JsonPathExtension.query := "$.b";
     JsonPathExtension.output := JsonPathExtension.Text |}.

Definition sample_document : value Z := JObject [("a", JNumber 1%Z)].

Example run_success :
  JsonPathExtension.exec 10
    (scripted_host (Some "$.a")
       {| JsonPathExtension.status := JsonPathExtension.Success;
          JsonPathExtension.result := Some [JNumber 1%Z] |})
    (JsonPathExtension.run (Some sample_editor) true)
  = ([("showInputBox", None); ("processQuery", None); ("format", None);
      ("openTextDocument", None); ("setTextDocumentLanguage", None);
      ("showTextDocument", None)], Some tt).
Proof. reflexivity. Qed.

Example run_no_data :
  JsonPathExtension.exec 10
    (scripted_host (Some "$.b")
       {| JsonPathExtension.status := JsonPathExtension.NoData;
          JsonPathExtension.result := None |})
    (JsonPathExtension.run (Some sample_editor) true)
  = ([("showInputBox", None); ("processQuery", None);
      ("showInformationMessage", Some JsonPathExtension.NoResultsFoundMsg)],
     Some tt).
Proof. reflexivity. Qed.

Example run_invalid_query :
  JsonPathExtension.exec 10
    (scripted_host (Some "$.[")
       {| JsonPathExtension.status := JsonPathExtension.InvalidQuery;
          JsonPathExtension.result := None |})
    (JsonPathExtension.run (Some sample_editor) false)
  = ([("showInputBox", None); ("processQuery", None);
      ("showErrorMessage", Some JsonPathExtension.InvalidJsonPathErrorMsg)],
     Some tt).
Proof. reflexivity. Qed.

Example run_cancelled_and_no_editor :
  JsonPathExtension.exec 10
    (scripted_host None
       {| JsonPathExtension.status := JsonPathExtension.Success;
          JsonPathExtension.result := Some [] |})
    (JsonPathExtension.run (Some sample_editor) true)
  = ([("showInputBox", None)], Some tt)
  /\ JsonPathExtension.exec 10
       (scripted_host None
          {| JsonPathExtension.status := JsonPathExtension.Success;
             JsonPathExtension.result := Some [] |})
       (JsonPathExtension.run None true)
     = ([("showErrorMessage", Some JsonPathExtension.NoJsonDocumentErrorMsg)],
        Some tt)
  /\ JsonPathExtension.exec 10
       (scripted_host None
          {| JsonPathExtension.status := JsonPathExtension.Success;
             JsonPathExtension.result := Some [] |})
       (JsonPathExtension.runSavedQuery (Some sample_editor))
     = ([("getConfiguration", None);
         ("showErrorMessage", Some JsonPathExtension.NoSavedQueriesErrorMsg)],
        Some tt).
Proof. repeat split; reflexivity. Qed.

Example json_texts :
  Grammar.is_json_text ("{" ++ quote ++ "name" ++ quote ++ ": " ++ quote
                        ++ String backslash "u20ac" ++ quote ++ "}") = true
  /\ Grammar.is_json_text "[1.5, -0.25e+3, 1E2, 0]" = true
  /\ Grammar.is_json_text " [[], {}, [[[]]], true, false, null] " = true
  /\ Grammar.is_json_text "{a: 1}" = false
  /\ Grammar.is_json_text "[1,]" = false
  /\ Grammar.is_json_text "[01]" = false
  /\ Grammar.is_json_text "[1.]" = false
  /\ Grammar.is_json_text "[.5]" = false
  /\ Grammar.is_json_text "[1e]" = false
  /\ Grammar.is_json_text "[+1]" = false
  /\ Grammar.is_json_text "" = false
  /\ Grammar.is_json_text "nul" = false
  /\ Grammar.is_json_text "1 2" = false.
Proof. repeat split; reflexivity. Qed.

(** The formatter on a heap where two matches are the same object: the
    string of [ResultFormatter.format]; the RangeError on a stack without
    room; the TypeError on an array that holds itself. *)
Example format_on_the_heap :
  let shared := Heap.OObject [("a", Heap.VNumber 1%Z)] in
  let h := [shared;
            Heap.OArray [Heap.VRef 0; Heap.VString "x"; Heap.VRef 0]] in
  Heap.format 5 h 1 true
  = (h, inr (ResultFormatter.format
               [JObject [("a", JNumber 1%Z)]; JString "x";
                JObject [("a", JNumber 1%Z)]] true))
  /\ Heap.format 5 h 1 false
     = ((h ++ [Heap.OArray [Heap.VString ("{" ++ quote ++ "a" ++ quote ++ ":1}");
                           Heap.VString "x";
                           Heap.VString ("{" ++ quote ++ "a" ++ quote ++ ":1}")]])%list,
        inr (ResultFormatter.format
               [JObject [("a", JNumber 1%Z)]; JString "x";
                JObject [("a", JNumber 1%Z)]] false))
  /\ Heap.format 1 h 1 true = (h, inl Heap.RangeError)
  /\ Heap.format 5 [Heap.OArray [Heap.VRef 0]] 0 true
     = ([Heap.OArray [Heap.VRef 0]], inl Heap.TypeError).
Proof. repeat split; reflexivity. Qed.

(** * Facts about strings and white space *)

Section StringFacts.

Lemma append_assoc (a b c : string) : (a ++ b) ++ c = a ++ (b ++ c).
Proof. induction a as [|x a IH]; simpl; [reflexivity | now rewrite IH]. Qed.

Lemma append_nil_r (a : string) : a ++ "" = a.
Proof. induction a as [|x a IH]; simpl; [reflexivity | now rewrite IH]. Qed.

Lemma length_append (a b : string) :
  String.length (a ++ b) = String.length a + String.length b.
Proof. induction a as [|x a IH]; simpl; [reflexivity | now rewrite IH]. Qed.

Lemma all_ws_append (a b : string) :
  all_ws (a ++ b) = all_ws a && all_ws b.
Proof.
  induction a as [|x a IH]; simpl; [reflexivity|].
  rewrite IH. apply andb_assoc.
Qed.

Lemma all_ws_spaces n : all_ws (spaces n) = true.
Proof. induction n as [|n IH]; simpl; [reflexivity | exact IH]. Qed.

Lemma skip_ws_append (w s : string) :
  all_ws w = true -> JSON.skip_ws (w ++ s) = JSON.skip_ws s.
Proof.
  induction w as [|x w IH]; simpl; [reflexivity|].
  intros Hw. apply andb_prop in Hw as [Hx Hw].
  rewrite Hx. exact (IH Hw).
Qed.

Lemma skip_ws_head c s :
  is_ws c = false -> JSON.skip_ws (String c s) = String c s.
Proof. intros Hc. simpl. rewrite Hc. reflexivity. Qed.

Lemma ws_not_num_char c : is_ws c = true -> num_char c = false.
Proof.
  destruct c as [[] [] [] [] [] [] [] []]; simpl; intros E;
    try discriminate E; reflexivity.
Qed.

(** White space keeps a text delimited. *)
Lemma num_delimited_ws w s :
  all_ws w = true -> num_delimited s = true -> num_delimited (w ++ s) = true.
Proof.
  destruct w as [|x w]; simpl; [auto|].
  intros Hw _. apply andb_prop in Hw as [Hx _].
  rewrite (ws_not_num_char _ Hx). reflexivity.
Qed.

End StringFacts.

(** * JSON.parse reads back what JSON.stringify writes *)

Section StringRoundTrip.
Import JSON.

(** A quoted character is read back as the character. *)
Lemma parse_string_body_quote_char c s r :
  parse_string_body s = Some r ->
  parse_string_body (quote_char c ++ s) = push c (Some r).
Proof.
  intros Hs.
  destruct c as [[] [] [] [] [] [] [] []];
    cbv [quote_char UnicodeEscape N_of_ascii N_of_digits hex_digit];
    simpl; rewrite Hs; reflexivity.
Qed.

Lemma parse_string_body_quote (k rest : string) :
  parse_string_body (quote_body k ++ String dquote rest) = Some (k, rest).
Proof.
  induction k as [|c k IH]; cbn [quote_body].
  - reflexivity.
  - rewrite append_assoc.
    rewrite (parse_string_body_quote_char c _ _ IH). reflexivity.
Qed.

End StringRoundTrip.

Section ValueRoundTrip.
Import JSON.
Context {num : Type} `{JsNumber num}.

Lemma value_start_not_ws c : value_start c = true -> is_ws c = false.
Proof.
  destruct c as [[] [] [] [] [] [] [] []]; simpl; intros E;
    try discriminate E; reflexivity.
Qed.

Lemma value_start_not_closing c :
  value_start c = true ->
  (c =? "]")%char = false /\ (c =? "}")%char = false.
Proof.
  destruct c as [[] [] [] [] [] [] [] []]; simpl; intros E;
    try discriminate E; split; reflexivity.
Qed.

Lemma num_start_value_start c : num_start c = true -> value_start c = true.
Proof. intros E. unfold value_start. rewrite E. reflexivity. Qed.

Lemma wrap_cons open close gap indent stepback p ps :
  wrap open close gap indent stepback (p :: ps)
  = open ++ lead gap indent
      ++ Lodash.Array_join ("," ++ lead gap indent) (p :: ps)
      ++ lead gap stepback ++ close.
Proof. destruct gap; reflexivity. Qed.

Lemma all_ws_lead gap indent :
  all_ws indent = true -> all_ws (lead gap indent) = true.
Proof. intros Hi. destruct gap; simpl; [reflexivity | exact Hi]. Qed.

Lemma all_ws_colon_space gap : all_ws (colon_space gap) = true.
Proof. destruct gap; reflexivity. Qed.

Lemma serialize_head gap indent (v : value num) :
  exists c s, SerializeJSONProperty gap indent v = String c s
              /\ value_start c = true.
Proof.
  destruct v as [|[]|n|s|elements|members]; simpl;
    try (eexists; eexists; split; reflexivity).
  - destruct (num_toString_start n) as (c & s & E & Hc).
    exists c, s. split; [exact E | exact (num_start_value_start _ Hc)].
  - unfold wrap.
    destruct (List.map _ elements); [|destruct gap];
      eexists; eexists; split; reflexivity.
  - unfold wrap.
    destruct (List.map _ members); [|destruct gap];
      eexists; eexists; split; reflexivity.
Qed.

(** One step of each of the reader's three functions. *)
Lemma parse_elements_S fuel s :
  parse_elements (num := num) (S fuel) s
  = match parse_value fuel s with
    | None => None
    | Some (v, rest) =>
        match skip_ws rest with
        | String c rest' =>
            if (c =? ",")%char then
              match parse_elements fuel rest' with
              | Some (vs, rest'') => Some (v :: vs, rest'')
              | None => None
              end
            else if (c =? "]")%char then Some ([v], rest')
            else None
        | "" => None
        end
    end.
Proof. reflexivity. Qed.

Lemma parse_members_S fuel s :
  parse_members (num := num) (S fuel) s
  = match skip_ws s with
    | String q s1 =>
        if (q =? dquote)%char then
          match parse_string_body s1 with
          | None => None
          | Some (key, s2) =>
              match skip_ws s2 with
              | String colon s3 =>
                  if (colon =? ":")%char then
                    match parse_value fuel s3 with
                    | None => None
                    | Some (v, rest) =>
                        match skip_ws rest with
                        | String c rest' =>
                            if (c =? ",")%char then
                              match parse_members fuel rest' with
                              | Some (ms, rest'') =>
                                  Some ((key, v) :: ms, rest'')
                              | None => None
                              end
                            else if (c =? "}")%char
                                 then Some ([(key, v)], rest')
                            else None
                        | "" => None
                        end
                    end
                  else None
              | "" => None
              end
          end
        else None
    | "" => None
    end.
Proof. reflexivity. Qed.

Lemma parse_value_array fuel s :
  parse_value (num := num) (S fuel) (String "[" s)
  = match closing "]" s with
    | Some rest => Some (JArray [], rest)
    | None =>
        match parse_elements fuel s with
        | Some (elements, rest) => Some (JArray elements, rest)
        | None => None
        end
    end.
Proof. reflexivity. Qed.

Lemma parse_value_object fuel s :
  parse_value (num := num) (S fuel) (String "{" s)
  = match closing "}" s with
    | Some rest => Some (JObject [], rest)
    | None =>
        match parse_members fuel s with
        | Some (members, rest) => Some (JObject members, rest)
        | None => None
        end
    end.
Proof. reflexivity. Qed.

Lemma parse_value_string fuel s :
  parse_value (num := num) (S fuel) (String dquote s)
  = match parse_string_body s with
    | Some (str, rest) => Some (JString str, rest)
    | None => None
    end.
Proof. reflexivity. Qed.

Lemma Array_join_head sep p ps :
  exists t, Lodash.Array_join sep (p :: ps) = p ++ t.
Proof.
  destruct ps as [|p' ps].
  - exists "". simpl. now rewrite append_nil_r.
  - eexists. reflexivity.
Qed.

Lemma comma_append s : "," ++ s = String "," s.
Proof. reflexivity. Qed.

Lemma parse_value_ws fuel w s :
  all_ws w = true ->
  parse_value (num := num) fuel (w ++ s) = parse_value fuel s.
Proof.
  intros Hw. destruct fuel; simpl; [reflexivity|].
  rewrite (skip_ws_append _ _ Hw). reflexivity.
Qed.

Lemma closing_ws c w s :
  all_ws w = true -> closing c (w ++ s) = closing c s.
Proof. intros Hw. unfold closing. now rewrite skip_ws_append. Qed.

Section WithGap.
Variable gap : string.
Hypothesis gap_ws : all_ws gap = true.

(** [v]'s text is read back as [v], whatever follows it. *)
Definition reads_back (v : value num) : Prop :=
  forall indent fuel rest,
    all_ws indent = true -> num_delimited rest = true -> size v <= fuel ->
    parse_value fuel (SerializeJSONProperty gap indent v ++ rest)
    = Some (v, rest).

(** A value's text does not start with a closing bracket. *)
Lemma closing_serialize indent (v : value num) rest :
  closing "]" (SerializeJSONProperty gap indent v ++ rest) = None
  /\ closing "}" (SerializeJSONProperty gap indent v ++ rest) = None.
Proof.
  destruct (serialize_head gap indent v) as (h & s & E & Hh).
  rewrite E. unfold closing. simpl append.
  rewrite (skip_ws_head _ _ (value_start_not_ws _ Hh)).
  destruct (value_start_not_closing _ Hh) as [H1 H2].
  rewrite H1, H2. split; reflexivity.
Qed.

Lemma parse_elements_join (e : value num) (es : list (value num)) :
  Forall reads_back (e :: es) ->
  forall indent ld tr fuel rest,
    all_ws indent = true -> all_ws ld = true -> all_ws tr = true ->
    list_sum (List.map (fun x => S (size x)) (e :: es)) <= fuel ->
    parse_elements fuel
      (ld ++ Lodash.Array_join ("," ++ ld)
               (List.map (SerializeJSONProperty gap indent) (e :: es))
          ++ tr ++ String "]" rest)
    = Some (e :: es, rest).
Proof.
  revert e. induction es as [|e' es IH]; intros e Hall indent ld tr fuel
    rest Hind Hld Htr Hfuel.
  - inversion_clear Hall as [|? ? He _].
    destruct fuel as [|f]; [simpl in Hfuel; lia|].
    rewrite parse_elements_S. simpl List.map. cbn [Lodash.Array_join].
    rewrite (parse_value_ws _ _ _ Hld).
    rewrite (He indent f (tr ++ String "]" rest) Hind).
    + rewrite (skip_ws_append _ _ Htr). reflexivity.
    + apply num_delimited_ws; [exact Htr | reflexivity].
    + simpl in Hfuel. lia.
  - inversion_clear Hall as [|? ? He Hes].
    destruct fuel as [|f]; [simpl in Hfuel; lia|].
    rewrite parse_elements_S.
    change (List.map (SerializeJSONProperty gap indent) (e :: e' :: es))
      with (SerializeJSONProperty gap indent e
            :: List.map (SerializeJSONProperty gap indent) (e' :: es)).
    set (parts := List.map (SerializeJSONProperty gap indent) (e' :: es)) in *.
    assert (Hjoin : forall p, Lodash.Array_join ("," ++ ld) (p :: parts)
                     = p ++ ("," ++ ld) ++ Lodash.Array_join ("," ++ ld) parts).
    { intros p. subst parts. reflexivity. }
    rewrite Hjoin, (parse_value_ws _ _ _ Hld), !append_assoc.
    rewrite (He indent f _ Hind); [| reflexivity | simpl in Hfuel; lia].
    rewrite comma_append, (skip_ws_head "," _ eq_refl).
    cbv beta match. rewrite Ascii.eqb_refl.
    specialize (IH e' Hes indent ld tr f rest Hind Hld Htr).
    fold parts in IH. rewrite IH; [reflexivity|].
    simpl in Hfuel. simpl. lia.
Qed.

(** The text of one member of an object, as SerializeJSONObject
    builds it. *)
Definition member_text (indent : string) (kv : string * value num)
    : string :=
  let member := QuoteJSONString (fst kv) ++ ":" in
  let member := match gap with
                | "" => member
                | _ => member ++ " "
                end in
  member ++ SerializeJSONProperty gap indent (snd kv).

Lemma member_text_eq indent k v :
  member_text indent (k, v)
  = String dquote
      (quote_body k
       ++ String dquote
            (String ":" (colon_space gap
                         ++ SerializeJSONProperty gap indent v))).
Proof.
  unfold member_text, QuoteJSONString, quote, colon_space.
  destruct gap; simpl; rewrite !append_assoc; reflexivity.
Qed.

Lemma parse_members_join (m : string * value num) ms :
  Forall (fun kv => reads_back (snd kv)) (m :: ms) ->
  forall indent ld tr fuel rest,
    all_ws indent = true -> all_ws ld = true -> all_ws tr = true ->
    list_sum (List.map (fun kv => S (size (snd kv))) (m :: ms)) <= fuel ->
    parse_members fuel
      (ld ++ Lodash.Array_join ("," ++ ld)
               (List.map (member_text indent) (m :: ms))
          ++ tr ++ String "}" rest)
    = Some (m :: ms, rest).
Proof.
  revert m. induction ms as [|m' ms IH]; intros [k v] Hall indent ld tr
    fuel rest Hind Hld Htr Hfuel.
  - inversion_clear Hall as [|? ? Hv _]. simpl in Hv.
    destruct fuel as [|f]; [simpl in Hfuel; lia|].
    rewrite parse_members_S. simpl List.map. cbn [Lodash.Array_join].
    rewrite (skip_ws_append _ _ Hld), member_text_eq.
    simpl append. rewrite (skip_ws_head dquote _ eq_refl).
    cbv beta match. rewrite Ascii.eqb_refl, append_assoc.
    simpl append. rewrite parse_string_body_quote.
    rewrite (skip_ws_head ":" _ eq_refl). cbv beta match.
    rewrite Ascii.eqb_refl, append_assoc.
    rewrite (parse_value_ws _ _ _ (all_ws_colon_space gap)).
    rewrite (Hv indent f (tr ++ String "}" rest) Hind).
    + rewrite (skip_ws_append _ _ Htr). reflexivity.
    + apply num_delimited_ws; [exact Htr | reflexivity].
    + simpl in Hfuel. lia.
  - inversion_clear Hall as [|? ? Hv Hms]. simpl in Hv.
    destruct fuel as [|f]; [simpl in Hfuel; lia|].
    rewrite parse_members_S.
    change (List.map (member_text indent) ((k, v) :: m' :: ms))
      with (member_text indent (k, v)
            :: List.map (member_text indent) (m' :: ms)).
    set (parts := List.map (member_text indent) (m' :: ms)) in *.
    assert (Hjoin : forall p, Lodash.Array_join ("," ++ ld) (p :: parts)
                     = p ++ ("," ++ ld) ++ Lodash.Array_join ("," ++ ld) parts).
    { intros p. subst parts. reflexivity. }
    rewrite Hjoin, (skip_ws_append _ _ Hld), !append_assoc, comma_append.
    remember (String "," (ld ++ _)) as tail eqn:Etail.
    rewrite member_text_eq.
    simpl append. rewrite (skip_ws_head dquote _ eq_refl).
    cbv beta match. rewrite Ascii.eqb_refl, append_assoc.
    simpl append. rewrite parse_string_body_quote.
    rewrite (skip_ws_head ":" _ eq_refl). cbv beta match.
    rewrite Ascii.eqb_refl, append_assoc.
    rewrite (parse_value_ws _ _ _ (all_ws_colon_space gap)).
    rewrite (Hv indent f _ Hind);
      [| subst tail; reflexivity | simpl in Hfuel; lia].
    subst tail. rewrite (skip_ws_head "," _ eq_refl).
    cbv beta match. rewrite Ascii.eqb_refl.
    specialize (IH m' Hms indent ld tr f rest Hind Hld Htr).
    fold parts in IH. rewrite IH; [reflexivity|].
    simpl in Hfuel. simpl. lia.
Qed.

(** Every value's text, in the compact or an indented form, is read
    back as the value. *)
Lemma parse_value_serialize (v : value num) : reads_back v.
Proof.
  induction v as [|b|n|s|elements IH|members IH] using value_nested_ind;
    intros indent fuel rest Hind Hrest Hfuel;
    (destruct fuel as [|f]; [simpl in Hfuel; lia|]).
  - reflexivity.
  - destruct b; reflexivity.
  - cbn [SerializeJSONProperty].
    destruct (num_toString_start n) as (c & s & E & Hc).
    cbn [parse_value]. rewrite E. simpl append.
    rewrite (skip_ws_head _ _ (value_start_not_ws _ (num_start_value_start _ Hc))).
    rewrite Hc.
    change (String c (s ++ rest)) with (String c s ++ rest).
    rewrite <- E, (num_read_toString n rest Hrest). reflexivity.
  - cbn [SerializeJSONProperty]. unfold QuoteJSONString, quote.
    simpl append. rewrite parse_value_string, append_assoc. simpl append.
    rewrite parse_string_body_quote. reflexivity.
  - cbn [SerializeJSONProperty]. destruct elements as [|e es].
    + reflexivity.
    + change (List.map (SerializeJSONProperty gap (indent ++ gap)) (e :: es))
        with (SerializeJSONProperty gap (indent ++ gap) e
              :: List.map (SerializeJSONProperty gap (indent ++ gap)) es).
      assert (Hind' : all_ws (indent ++ gap) = true).
      { rewrite all_ws_append, Hind, gap_ws. reflexivity. }
      assert (Hld := all_ws_lead gap _ Hind').
      assert (Htr := all_ws_lead gap _ Hind).
      rewrite wrap_cons, !append_assoc.
      change ("[" ++ ?x) with (String "[" x).
      rewrite parse_value_array, (closing_ws _ _ _ Hld).
      destruct (Array_join_head
                  ("," ++ lead gap (indent ++ gap))
                  (SerializeJSONProperty gap (indent ++ gap) e)
                  (List.map (SerializeJSONProperty gap (indent ++ gap)) es))
        as [t Et].
      rewrite Et at 1. rewrite append_assoc.
      rewrite (proj1 (closing_serialize _ e _)).
      change ("]" ++ rest) with (String "]" rest).
      change (SerializeJSONProperty gap (indent ++ gap) e
              :: List.map (SerializeJSONProperty gap (indent ++ gap)) es)
        with (List.map (SerializeJSONProperty gap (indent ++ gap)) (e :: es)).
      rewrite (parse_elements_join e es IH); try assumption; [reflexivity|].
      simpl in Hfuel. simpl. lia.
  - cbn [SerializeJSONProperty]. destruct members as [|[k v] ms].
    + reflexivity.
    + change (List.map ?f ((k, v) :: ms))
        with (List.map (member_text (indent ++ gap)) ((k, v) :: ms)).
      assert (Hind' : all_ws (indent ++ gap) = true).
      { rewrite all_ws_append, Hind, gap_ws. reflexivity. }
      assert (Hld := all_ws_lead gap _ Hind').
      assert (Htr := all_ws_lead gap _ Hind).
      change (List.map (member_text (indent ++ gap)) ((k, v) :: ms))
        with (member_text (indent ++ gap) (k, v)
              :: List.map (member_text (indent ++ gap)) ms).
      rewrite wrap_cons, !append_assoc.
      change ("{" ++ ?x) with (String "{" x).
      rewrite parse_value_object, (closing_ws _ _ _ Hld).
      match goal with
      | |- context [closing "}" ?text] =>
          assert (Hclose : closing "}" text = None)
      end.
      { destruct (Array_join_head
                    ("," ++ lead gap (indent ++ gap))
                    (member_text (indent ++ gap) (k, v))
                    (List.map (member_text (indent ++ gap)) ms))
          as [t Et].
        rewrite Et, member_text_eq. reflexivity. }
      rewrite Hclose.
      change ("}" ++ rest) with (String "}" rest).
      change (member_text (indent ++ gap) (k, v)
              :: List.map (member_text (indent ++ gap)) ms)
        with (List.map (member_text (indent ++ gap)) ((k, v) :: ms)).
      rewrite (parse_members_join (k, v) ms IH); try assumption;
        [reflexivity|].
      simpl in Hfuel. simpl. lia.
Qed.

(** The reader's fuel: a value's text is at least as long as the
    number of calls it takes. *)
Lemma Array_join_length sep (parts : list string) :
  1 <= String.length sep ->
  list_sum (List.map (fun p => S (String.length p)) parts)
  <= S (String.length (Lodash.Array_join sep parts)).
Proof.
  intros Hsep. induction parts as [|p [|p' parts] IH].
  - simpl. lia.
  - simpl. lia.
  - change (Lodash.Array_join sep (p :: p' :: parts))
      with (p ++ sep ++ Lodash.Array_join sep (p' :: parts)).
    rewrite !length_append.
    change (List.map (fun p => S (String.length p)) (p :: p' :: parts))
      with (S (String.length p)
            :: List.map (fun p => S (String.length p)) (p' :: parts)).
    change (list_sum (?a :: ?l)) with (a + list_sum l). lia.
Qed.

Lemma list_sum_le {A} (f g : A -> nat) (l : list A) :
  Forall (fun x => f x <= g x) l ->
  list_sum (List.map f l) <= list_sum (List.map g l).
Proof. induction 1; simpl; lia. Qed.

Lemma wrap_length open close indent stepback (parts : list string) :
  1 <= String.length open -> 1 <= String.length close ->
  S (list_sum (List.map (fun p => S (String.length p)) parts))
  <= String.length (wrap open close gap indent stepback parts).
Proof.
  intros Hopen Hclose. destruct parts as [|p ps].
  - simpl. rewrite length_append. lia.
  - rewrite wrap_cons, !length_append.
    pose proof (Array_join_length ("," ++ lead gap (indent)) (p :: ps)) as Hj.
    rewrite length_append in Hj. simpl String.length in Hj at 1.
    specialize (Hj ltac:(lia)). lia.
Qed.

Lemma size_le_length (v : value num) :
  forall indent,
    size v <= String.length (SerializeJSONProperty gap indent v).
Proof.
  induction v as [|b|n|s|elements IH|members IH] using value_nested_ind;
    intros indent.
  - simpl. lia.
  - destruct b; simpl; lia.
  - simpl. destruct (num_toString_start n) as (c & s & E & _).
    rewrite E. simpl. lia.
  - simpl. lia.
  - cbn [SerializeJSONProperty size].
    pose proof (wrap_length "[" "]" (indent ++ gap) indent
                  (List.map (SerializeJSONProperty gap (indent ++ gap))
                     elements)) as Hw.
    rewrite List.map_map in Hw.
    pose proof (list_sum_le
                  (fun e => S (size e))
                  (fun e => S (String.length
                                 (SerializeJSONProperty gap (indent ++ gap) e)))
                  elements) as Hle.
    specialize (Hw ltac:(simpl; lia) ltac:(simpl; lia)).
    assert (Hall : Forall (fun x => S (size x)
               <= S (String.length
                       (SerializeJSONProperty gap (indent ++ gap) x)))
               elements).
    { eapply Forall_impl; [|exact IH]. cbv beta. intros e He.
      specialize (He (indent ++ gap)). lia. }
    specialize (Hle Hall). lia.
  - cbn [SerializeJSONProperty size].
    change (List.map ?f members)
      with (List.map (member_text (indent ++ gap)) members) at 2.
    pose proof (wrap_length "{" "}" (indent ++ gap) indent
                  (List.map (member_text (indent ++ gap)) members)) as Hw.
    rewrite List.map_map in Hw.
    pose proof (list_sum_le
                  (fun kv => S (size (snd kv)))
                  (fun kv => S (String.length
                                  (member_text (indent ++ gap) kv)))
                  members) as Hle.
    specialize (Hw ltac:(simpl; lia) ltac:(simpl; lia)).
    assert (Hall : Forall (fun kv => S (size (snd kv))
               <= S (String.length (member_text (indent ++ gap) kv)))
               members).
    { eapply Forall_impl; [|exact IH]. cbv beta. intros [k v] Hv.
      rewrite member_text_eq. simpl. rewrite !length_append. simpl.
      rewrite length_append.
      specialize (Hv (indent ++ gap)). simpl in Hv. lia. }
    specialize (Hle Hall). lia.
Qed.

End WithGap.

(** JSON.parse after JSON.stringify, for every [space]. *)
Lemma parse_stringify (v : value num) (space : nat) :
  JSON.parse (JSON.stringify v space) = Some v.
Proof.
  unfold JSON.parse, JSON.stringify.
  set (gap := gap_of_space space).
  assert (Hgap : all_ws gap = true) by apply all_ws_spaces.
  pose proof (size_le_length gap Hgap v "") as Hlen.
  pose proof (parse_value_serialize gap Hgap v ""
                (S (String.length (SerializeJSONProperty gap "" v))) ""
                eq_refl eq_refl) as Hread.
  rewrite append_nil_r in Hread. rewrite Hread; [reflexivity | lia].
Qed.

End ValueRoundTrip.

(** * The extension: what the caller does with an answer *)

Section ExtensionFacts.
Import JsonPathExtension.
Import ITreeNotations.
Local Open Scope itree_scope.
Context {num : Type} `{JsNumber num}.

(** Equivalent single calls are the same call. *)
Lemma eqeq_call U1 U2 (p : U1 = U2) (e1 : callE num U1) (e2 : callE num U2) :
  eqeq (callE num) p e1 e2 ->
  call_name e1 = call_name e2 /\ call_message e1 = call_message e2.
Proof. destruct p. cbn. intros ->. split; reflexivity. Qed.

Lemma eutt_trigger_call U1 U2 (e1 : callE num U1) (e2 : callE num U2) R
    (k1 : U1 -> itree (callE num) R) (k2 : U2 -> itree (callE num) R) :
  Vis e1 k1 ≈ Vis e2 k2 ->
  call_name e1 = call_name e2 /\ call_message e1 = call_message e2.
Proof.
  intros Heq. apply eqit_inv in Heq. cbn in Heq.
  destruct Heq as (p & He & _). exact (eqeq_call _ _ p e1 e2 He).
Qed.

Lemma showResult_NoData editor (payload : option (list (value num)))
    createJson :
  showResult editor {| status := NoData; result := payload |} createJson
  = ITree.trigger (showInformationMessage NoResultsFoundMsg).
Proof. destruct payload; reflexivity. Qed.

Lemma showResult_InvalidQuery editor (payload : option (list (value num)))
    createJson :
  showResult editor {| status := InvalidQuery; result := payload |} createJson
  = ITree.trigger (showErrorMessage InvalidJsonPathErrorMsg).
Proof. destruct payload; reflexivity. Qed.

Lemma showResult_Success editor (results : list (value num)) createJson :
  showResult editor {| status := Success; result := Some results |} createJson
  = (content <- ITree.trigger (format results createJson) ;;
     showContent content createJson (nextColumn editor)).
Proof. reflexivity. Qed.

End ExtensionFacts.

(** * The recursive descent visits every node once, in pre-order *)

Section DescentFacts.
Import QueryEngine.
Context {num : Type} `{JsNumber num}.

(** Induction over a value with the hypothesis for all its children. *)
Lemma value_children_ind (P : value num -> Prop) :
  (forall v, Forall P (children v) -> P v) -> forall v, P v.
Proof.
  intros Hstep v.
  induction v as [|b|n|s|elements IH|members IH] using value_nested_ind;
    apply Hstep; simpl; try constructor.
  - exact IH.
  - apply Forall_map. exact IH.
Qed.

Lemma child_nodes_eq p (v : value num) :
  child_nodes (p, v) = List.map (child_at p) (enumerate_from 0 (children v)).
Proof. reflexivity. Qed.

(** The listing of a node is the node, then the listings of its children
    in order. *)
Lemma preorder_unfold p (v : value num) :
  preorder p v = (p, v) :: List.flat_map subtree (child_nodes (p, v)).
Proof.
  rewrite child_nodes_eq.
  destruct v as [| | | |elements|members]; try reflexivity.
  - cbn [preorder children]. f_equal.
    generalize 0. induction elements as [|c l IH]; intros i;
      [reflexivity|].
    cbn [enumerate_from List.map List.flat_map]. rewrite IH. reflexivity.
  - cbn [preorder children]. f_equal.
    generalize 0. induction members as [|kv l IH]; intros i;
      [reflexivity|].
    cbn [enumerate_from List.map List.flat_map]. rewrite IH. reflexivity.
Qed.

(** The work-list emits the subtrees of the nodes on the stack, top
    first. *)
Lemma descend_loop_subtrees (stack : list (Node num)) :
  descend_loop stack = List.flat_map subtree stack.
Proof.
  funelim (descend_loop stack).
  - reflexivity.
  - simp descend_loop. destruct n as [p v].
    match goal with IH : descend_loop _ = _ |- _ => rewrite IH end.
    rewrite flat_map_app. cbn [List.flat_map]. unfold subtree at 3.
    cbn [fst snd]. rewrite (preorder_unfold p v). reflexivity.
Qed.

Lemma descend_preorder (n : Node num) : descend n = subtree n.
Proof.
  unfold descend. rewrite descend_loop_subtrees. cbn [List.flat_map].
  apply List.app_nil_r.
Qed.

(** **** Every node is counted *)

Lemma subtrees_length p (cs : list (value num)) i :
  Forall (fun c => forall q, List.length (preorder q c) = node_count c) cs ->
  List.length (List.flat_map subtree (List.map (child_at p) (enumerate_from i cs)))
  = list_sum (List.map node_count cs).
Proof.
  intros Hcs. revert i. induction Hcs as [|c cs Hc _ IH]; intros i.
  - reflexivity.
  - cbn [enumerate_from List.map List.flat_map]. rewrite List.length_app, IH.
    unfold subtree, child_at. cbn [fst snd]. rewrite Hc. reflexivity.
Qed.

Lemma preorder_length (v : value num) :
  forall p, List.length (preorder p v) = node_count v.
Proof.
  induction v as [v IH] using value_children_ind. intros p.
  rewrite preorder_unfold, child_nodes_eq, node_count_children.
  cbn [List.length]. rewrite (subtrees_length p _ 0 IH). reflexivity.
Qed.

(** **** The nodes listed are the nodes of the document *)

Lemma in_enumerate_from {A} (l : list A) k i (x : A) :
  In (i, x) (enumerate_from k l)
  <-> k <= i /\ List.nth_error l (i - k) = Some x.
Proof.
  revert k. induction l as [|y l IH]; intros k; cbn [enumerate_from In].
  - split; [contradiction|]. intros [_ E]. destruct (i - k); discriminate E.
  - rewrite IH. split.
    + intros [E | [Hle E]].
      * inversion E; subst. rewrite Nat.sub_diag. split; [lia | reflexivity].
      * split; [lia|]. replace (i - k) with (S (i - S k)) by lia. exact E.
    + intros [Hle E]. destruct (Nat.eq_dec k i) as [->|Hne].
      * left. rewrite Nat.sub_diag in E. inversion E. reflexivity.
      * right. split; [lia|].
        replace (i - k) with (S (i - S k)) in E by lia. exact E.
Qed.

Lemma in_child_nodes p (v : value num) (n : Node num) :
  In n (child_nodes (p, v))
  <-> exists i c, n = ((p ++ [i])%list, c)
                  /\ List.nth_error (children v) i = Some c.
Proof.
  rewrite child_nodes_eq, in_map_iff. split.
  - intros ([i c] & <- & Hin). apply in_enumerate_from in Hin as [_ E].
    rewrite Nat.sub_0_r in E. exists i, c. split; [reflexivity | exact E].
  - intros (i & c & -> & E). exists (i, c). split; [reflexivity|].
    apply in_enumerate_from. rewrite Nat.sub_0_r. split; [lia | exact E].
Qed.

Lemma in_preorder (v : value num) :
  forall p q w,
    In (q, w) (preorder p v)
    <-> exists s, q = (p ++ s)%list /\ lookup v s = Some w.
Proof.
  induction v as [v IH] using value_children_ind. intros p q w.
  rewrite preorder_unfold. cbn [In]. rewrite in_flat_map. split.
  - intros [E | (n & Hn & Hin)].
    + inversion E; subst. exists []. split;
        [now rewrite List.app_nil_r | reflexivity].
    + apply in_child_nodes in Hn as (i & c & -> & Hc).
      rewrite Forall_forall in IH.
      unfold subtree in Hin. cbn [fst snd] in Hin.
      apply (IH c (nth_error_In _ _ Hc)) in Hin as (s & -> & Hs).
      exists (i :: s). split.
      * now rewrite <- List.app_assoc.
      * cbn [lookup]. rewrite Hc. exact Hs.
  - intros ([|i s] & -> & Hs).
    + left. cbn in Hs. inversion Hs. now rewrite List.app_nil_r.
    + right. cbn [lookup] in Hs.
      destruct (List.nth_error (children v) i) as [c|] eqn:Hc;
        [|discriminate Hs].
      exists ((p ++ [i])%list, c). split.
      * apply in_child_nodes. exists i, c. split; [reflexivity | exact Hc].
      * rewrite Forall_forall in IH. unfold subtree. cbn [fst snd].
        apply (IH c (nth_error_In _ _ Hc)). exists s. split;
          [now rewrite <- List.app_assoc | exact Hs].
Qed.

(** **** No position is listed twice *)

Lemma positions_app (a b : list (Node num)) :
  positions (a ++ b) = (positions a ++ positions b)%list.
Proof. apply List.map_app. Qed.

Lemma in_positions_preorder (v : value num) p q :
  In q (positions (preorder p v)) -> exists s, q = (p ++ s)%list.
Proof.
  unfold positions. rewrite in_map_iff. intros ([q' w] & <- & Hin).
  apply in_preorder in Hin as (s & -> & _). exists s. reflexivity.
Qed.

Lemma subtrees_positions p (cs : list (value num)) i q :
  In q (positions
          (List.flat_map subtree (List.map (child_at p) (enumerate_from i cs)))) ->
  exists j s, i <= j /\ q = (p ++ j :: s)%list.
Proof.
  revert i. induction cs as [|c cs IH]; intros i; [contradiction|].
  cbn [enumerate_from List.map List.flat_map]. rewrite positions_app, in_app_iff.
  intros [Hin | Hin].
  - unfold subtree, child_at in Hin. cbn [fst snd] in Hin.
    apply in_positions_preorder in Hin as (s & ->).
    exists i, s. split; [lia | now rewrite <- List.app_assoc].
  - apply IH in Hin as (j & s & Hle & ->). exists j, s. split; [lia | reflexivity].
Qed.

Lemma subtrees_NoDup p (cs : list (value num)) i :
  Forall (fun c => forall q, NoDup (positions (preorder q c))) cs ->
  NoDup (positions
           (List.flat_map subtree (List.map (child_at p) (enumerate_from i cs)))).
Proof.
  intros Hcs. revert i. induction Hcs as [|c cs Hc _ IH]; intros i.
  - constructor.
  - cbn [enumerate_from List.map List.flat_map]. rewrite positions_app.
    apply NoDup_app; [apply Hc | apply IH |].
    intros q Hq1 Hq2.
    unfold subtree, child_at in Hq1. cbn [fst snd] in Hq1.
    apply in_positions_preorder in Hq1 as (s & ->).
    apply subtrees_positions in Hq2 as (j & s' & Hle & E).
    rewrite <- List.app_assoc in E. apply List.app_inv_head in E.
    inversion E. lia.
Qed.

Lemma preorder_NoDup (v : value num) :
  forall p, NoDup (positions (preorder p v)).
Proof.
  induction v as [v IH] using value_children_ind. intros p.
  rewrite preorder_unfold, child_nodes_eq. cbn [positions List.map fst].
  constructor.
  - intros Hin. apply subtrees_positions in Hin as (j & s & _ & E).
    rewrite <- (List.app_nil_r p) in E at 1.
    apply List.app_inv_head in E. discriminate E.
  - apply subtrees_NoDup. exact IH.
Qed.

End DescentFacts.

(** * The formatter's two renderings, in the words of the specification *)

Section RenderingFacts.
Import JSON.
Context {num : Type} `{JsNumber num}.

Lemma map_ext_Forall {A B} (f g : A -> B) (l : list A) :
  Forall (fun x => f x = g x) l -> List.map f l = List.map g l.
Proof. induction 1 as [|x l E _ IH]; simpl; [reflexivity | now rewrite E, IH]. Qed.

Lemma serialize_compact (v : value num) :
  forall indent, SerializeJSONProperty "" indent v = spec_compact_json v.
Proof.
  induction v as [|b|n|s|elements IH|members IH] using value_nested_ind;
    intros indent; try reflexivity.
  - cbn [SerializeJSONProperty spec_compact_json].
    rewrite (map_ext_Forall _ spec_compact_json elements).
    + destruct elements; reflexivity.
    + eapply Forall_impl; [|exact IH]. intros e He. apply He.
  - cbn [SerializeJSONProperty spec_compact_json].
    rewrite (map_ext_Forall _
               (fun kv => QuoteJSONString (fst kv) ++ ":" ++ spec_compact_json (snd kv))
               members).
    + destruct members; reflexivity.
    + eapply Forall_impl; [|exact IH]. intros kv Hkv. cbv beta.
      rewrite Hkv, append_assoc. reflexivity.
Qed.

Lemma spaces_add a b : spaces a ++ spaces b = spaces (a + b).
Proof. induction a as [|a IH]; simpl; [reflexivity | now rewrite IH]. Qed.

(** The indentation written once after each separator is the indentation
    written in front of each part. *)
Lemma Array_join_indent sep ind p ps :
  ind ++ Lodash.Array_join (sep ++ ind) (p :: ps)
  = Lodash.Array_join sep (List.map (append ind) (p :: ps)).
Proof.
  revert p. induction ps as [|p' ps IH]; intros p; [reflexivity|].
  change (Lodash.Array_join (sep ++ ind) (p :: p' :: ps))
    with (p ++ (sep ++ ind) ++ Lodash.Array_join (sep ++ ind) (p' :: ps)).
  change (List.map (append ind) (p :: p' :: ps))
    with ((ind ++ p) :: List.map (append ind) (p' :: ps)).
  set (tail := List.map (append ind) (p' :: ps)) in *.
  assert (Hjoin : Lodash.Array_join sep ((ind ++ p) :: tail)
                  = (ind ++ p) ++ sep ++ Lodash.Array_join sep tail)
    by (subst tail; reflexivity).
  rewrite Hjoin. subst tail. rewrite <- IH, !append_assoc. reflexivity.
Qed.

Lemma serialize_indented (v : value num) :
  forall depth,
    SerializeJSONProperty (spaces 2) (spaces (2 * depth)) v
    = spec_indented_json depth v.
Proof.
  induction v as [|b|n|s|elements IH|members IH] using value_nested_ind;
    intros depth; try reflexivity.
  - cbn [SerializeJSONProperty spec_indented_json].
    replace (spaces (2 * depth) ++ spaces 2) with (spaces (2 * S depth))
      by (rewrite spaces_add; f_equal; lia).
    rewrite (map_ext_Forall _ (spec_indented_json (S depth)) elements).
    2:{ eapply Forall_impl; [|exact IH]. intros e He. apply He. }
    destruct elements as [|e es]; [reflexivity|].
    change (List.map (spec_indented_json (S depth)) (e :: es))
      with (spec_indented_json (S depth) e :: List.map (spec_indented_json (S depth)) es).
    rewrite wrap_cons. unfold lead. cbn [spaces].
    rewrite <- (List.map_map (spec_indented_json (S depth))
                  (append (spaces (2 * S depth)))).
    change (List.map (spec_indented_json (S depth)) (e :: es))
      with (spec_indented_json (S depth) e :: List.map (spec_indented_json (S depth)) es).
    rewrite <- Array_join_indent, !append_assoc. reflexivity.
  - cbn [SerializeJSONProperty spec_indented_json].
    replace (spaces (2 * depth) ++ spaces 2) with (spaces (2 * S depth))
      by (rewrite spaces_add; f_equal; lia).
    rewrite (map_ext_Forall _
               (fun kv => QuoteJSONString (fst kv) ++ ": "
                          ++ spec_indented_json (S depth) (snd kv))
               members).
    2:{ eapply Forall_impl; [|exact IH]. intros kv Hkv. cbv beta.
        rewrite Hkv. cbn [spaces]. rewrite !append_assoc. reflexivity. }
    destruct members as [|m ms]; [reflexivity|].
    set (text := fun kv : string * value num =>
                   QuoteJSONString (fst kv) ++ ": "
                   ++ spec_indented_json (S depth) (snd kv)).
    change (List.map text (m :: ms)) with (text m :: List.map text ms).
    rewrite wrap_cons. unfold lead. cbn [spaces].
    change (List.map ?f (m :: ms))
      with (List.map (fun kv => append (spaces (2 * S depth)) (text kv))
              (m :: ms)).
    rewrite <- (List.map_map text (append (spaces (2 * S depth)))).
    change (List.map text (m :: ms)) with (text m :: List.map text ms).
    rewrite <- Array_join_indent, !append_assoc. reflexivity.
Qed.

End RenderingFacts.

(** * The claims about the formatter *)

Section FormatterClaims.
Import ResultFormatter.

Lemma convertResultToString_plain_text {num} `{JsNumber num} (v : value num) :
  convertResultToString v = spec_plain_text v.
Proof.
  destruct v; try reflexivity; unfold convertResultToString, JSON.stringify;
    apply serialize_compact.
Qed.

Lemma Array_join_snoc sep (ps : list string) p :
  Lodash.Array_join sep (ps ++ [p])
  = match ps with
    | [] => p
    | _ => Lodash.Array_join sep ps ++ sep ++ p
    end.
Proof.
  induction ps as [|q [|q' ps] IH]; try reflexivity.
  change (Lodash.Array_join sep ((q :: q' :: ps) ++ [p]))
    with (q ++ sep ++ Lodash.Array_join sep ((q' :: ps) ++ [p])).
  rewrite IH.
  change (Lodash.Array_join sep (q :: q' :: ps))
    with (q ++ sep ++ Lodash.Array_join sep (q' :: ps)).
  rewrite !append_assoc. reflexivity.
Qed.

(** C2.  Plain-text mode renders each match on its own -- a string as its
    raw text, a number as the text of the number, any other value as its
    compact JSON text -- and joins the entries with one newline between
    neighbours and none after the last; the list 42, x, an object with a:1
    gives the three lines of the specification's example. *)
Theorem format_plain_text :
  (forall (num : Type) (N : JsNumber num),
      (forall v : value num, convertResultToString v = spec_plain_text v)
      /\ (forall s : string, spec_plain_text (JString s : value num) = s)
      /\ (forall n : num, spec_plain_text (JNumber n) = num_toString n)
      /\ (forall ms : list (value num),
             format ms false = Lodash.Array_join nl (List.map spec_plain_text ms))
      /\ format (@nil (value num)) false = ""
      /\ (forall m : value num, format [m] false = spec_plain_text m)
      /\ (forall (m m' : value num) ms,
             format (m :: m' :: ms) false
             = spec_plain_text m ++ nl ++ format (m' :: ms) false)
      /\ (forall (ms : list (value num)) m,
             format (ms ++ [m]) false
             = match ms with
               | [] => ""
               | _ => format ms false ++ nl
               end ++ spec_plain_text m))
  /\ format [JNumber 42%Z; JString "x"; JObject [("a", JNumber 1%Z)]] false
     = "42" ++ nl ++ "x" ++ nl ++ "{" ++ quote ++ "a" ++ quote ++ ":1}".
Proof.
  split; [|reflexivity].
  intros num N.
  assert (Hfmt : forall ms : list (value num),
             format ms false = Lodash.Array_join nl (List.map spec_plain_text ms)).
  { intros ms. unfold format, Lodash.join, Lodash.map. f_equal.
    apply List.map_ext. intros v. apply convertResultToString_plain_text. }
  repeat split; try reflexivity.
  - apply convertResultToString_plain_text.
  - exact Hfmt.
  - intros m. rewrite Hfmt. reflexivity.
  - intros m m' ms. rewrite !Hfmt. reflexivity.
  - intros ms m. rewrite Hfmt, List.map_app. cbn [List.map].
    rewrite Array_join_snoc. destruct ms as [|m0 ms]; [reflexivity|].
    rewrite Hfmt, !append_assoc. reflexivity.
Qed.

(** C3.  JSON mode writes the Match Set as one JSON array indented by two
    spaces per level, elements and object members in the order the values
    have them; the text determines the Match Set, so no value is dropped,
    added, reordered or has its keys re-sorted. *)
Theorem format_json_indented :
  (forall (num : Type) (N : JsNumber num) (ms : list (value num)),
      format ms true = spec_indented_json 0 (JArray ms)
      /\ (forall ms' : list (value num),
             format ms true = format ms' true -> ms = ms'))
  /\ format [JObject [("b", JNumber 1%Z); ("a", JArray [JNumber 2%Z])]] true
     = "[" ++ nl ++ "  {" ++ nl
       ++ "    " ++ quote ++ "b" ++ quote ++ ": 1," ++ nl
       ++ "    " ++ quote ++ "a" ++ quote ++ ": [" ++ nl
       ++ "      2" ++ nl ++ "    ]" ++ nl ++ "  }" ++ nl ++ "]".
Proof.
  split; [|reflexivity].
  intros num N ms. split.
  - unfold format, JSON.stringify. apply (serialize_indented (JArray ms) 0).
  - intros ms' E. unfold format in E.
    pose proof (parse_stringify (JArray ms) 2) as P.
    rewrite E, parse_stringify in P. now inversion P.
Qed.

(** C4.  Reading the JSON-mode text with a JSON parser gives back the
    Match Set: the same values in the same order. *)
Theorem format_json_round_trip :
  forall (num : Type) (N : JsNumber num) (ms : list (value num)),
    JSON.parse (format ms true) = Some (JArray ms).
Proof. intros num N ms. apply parse_stringify. Qed.

(** C5.  The empty Match Set renders as the two brackets in JSON mode and
    as the empty string in plain mode. *)
Theorem format_empty :
  forall (num : Type) (N : JsNumber num),
    format (@nil (value num)) true = "[]"
    /\ format (@nil (value num)) false = "".
Proof. intros num N. split; reflexivity. Qed.

End FormatterClaims.

(** * The claims about the extension *)

Section ExtensionClaims.
Import JsonPathExtension.
Import ITreeNotations.
Local Open Scope itree_scope.

(** What the caller does with an answer, by its status: for NoData it
    shows the information message that nothing was found; for InvalidQuery
    the error message that the expression is not valid; a Success with an
    empty result is formatted and shown like any other success.  The three
    reports differ. *)
Lemma no_data_is_reported_apart :
  forall (num : Type) (N : JsNumber num) (editor : TextEditor)
         (payload : option (list (value num))) (createJson : bool),
    let no_data := {| status := NoData; result := payload |} in
    let invalid := {| status := InvalidQuery; result := payload |} in
    let empty := {| status := Success; result := Some (@nil (value num)) |} in
    showResult editor no_data createJson
    ≈ ITree.trigger (showInformationMessage NoResultsFoundMsg)
    /\ showResult editor invalid createJson
       ≈ ITree.trigger (showErrorMessage InvalidJsonPathErrorMsg)
    /\ ~ (showResult editor no_data createJson
          ≈ showResult editor invalid createJson)
    /\ showResult editor empty createJson
       ≈ (content <- ITree.trigger (format (@nil (value num)) createJson) ;;
          showContent content createJson (nextColumn editor))
    /\ ~ (showResult editor empty createJson
          ≈ ITree.trigger (showInformationMessage NoResultsFoundMsg))
    /\ ~ (showResult editor empty createJson
          ≈ showResult editor invalid createJson).
Proof.
  intros num N editor payload createJson no_data invalid empty.
  subst no_data invalid empty.
  rewrite showResult_NoData, showResult_InvalidQuery, showResult_Success.
  split; [reflexivity|]. split; [reflexivity|]. split; [|split; [|split]].
  - intros Heq. apply eutt_trigger_call in Heq as [Hname _].
    discriminate Hname.
  - reflexivity.
  - intros Heq. unfold ITree.trigger in Heq. rewrite bind_vis in Heq.
    apply eutt_trigger_call in Heq as [Hname _]. discriminate Hname.
  - intros Heq. unfold ITree.trigger in Heq. rewrite bind_vis in Heq.
    apply eutt_trigger_call in Heq as [Hname _]. discriminate Hname.
Qed.

(** C10.  When the editor's text parses as JSON to a number, a string, a
    boolean or null, run and runSavedQuery show the error message of the
    missing JSON document and end: that message is their only call, on any
    host; the query engine and the formatter are not called. *)
Theorem primitive_document_is_refused :
  forall (num : Type) (N : JsNumber num) (editor : TextEditor)
         (v : value num) (createJson : bool),
    JSON.parse (document_getText editor) = Some v ->
    primitive v ->
    run (num := num) (Some editor) createJson
    ≈ ITree.trigger (showErrorMessage NoJsonDocumentErrorMsg)
    /\ runSavedQuery (num := num) (Some editor)
       ≈ ITree.trigger (showErrorMessage NoJsonDocumentErrorMsg)
    /\ forall (host : forall T, callE num T -> T) (fuel : nat),
         exec (S (S fuel)) host (run (Some editor) createJson)
         = ([("showErrorMessage", Some NoJsonDocumentErrorMsg)], Some tt)
         /\ exec (S (S fuel)) host (runSavedQuery (Some editor))
            = ([("showErrorMessage", Some NoJsonDocumentErrorMsg)], Some tt).
Proof.
  intros num N editor v createJson Hparse Hprim.
  assert (Hobj : getJsonObject (num := num) editor = None).
  { unfold getJsonObject. rewrite Hparse.
    destruct v; try reflexivity; contradiction. }
  unfold run, runSavedQuery. rewrite Hobj.
  split; [reflexivity|]. split; [reflexivity|]. intros host fuel. split.
  - cbn. destruct (host unit (showErrorMessage NoJsonDocumentErrorMsg)).
    reflexivity.
  - cbn. destruct (host unit (showErrorMessage NoJsonDocumentErrorMsg)).
    reflexivity.
Qed.

Lemma primitive_document_is_refused_witness :
  let editor := {| document_getText := "42"; viewColumn := Some 1%Z |} in
  run (num := Z) (Some editor) true
  ≈ ITree.trigger (showErrorMessage NoJsonDocumentErrorMsg)
  /\ runSavedQuery (num := Z) (Some editor)
     ≈ ITree.trigger (showErrorMessage NoJsonDocumentErrorMsg)
  /\ forall (host : forall T, callE Z T -> T) (fuel : nat),
       exec (S (S fuel)) host (run (Some editor) true)
       = ([("showErrorMessage", Some NoJsonDocumentErrorMsg)], Some tt)
       /\ exec (S (S fuel)) host (runSavedQuery (Some editor))
          = ([("showErrorMessage", Some NoJsonDocumentErrorMsg)], Some tt).
Proof.
  exact (primitive_document_is_refused Z Z_JsNumber
           {| document_getText := "42"; viewColumn := Some 1%Z |}
           (JNumber 42%Z) true eq_refl I).
Defined.

End ExtensionClaims.

(** * The claims about the query engine *)

Section EngineClaims.
Import QueryEngine.



(** C8.  The root-only query parses to the path expression without
    segments, and its evaluation on any document is a Success whose Match
    Set is the root value and nothing else. *)
Theorem root_query_matches_the_root :
  forall (num : Type) (N : JsNumber num) (document : value num),
    parse (num := num) "$" = Some []
    /\ evaluate "$" document = Success [document].
Proof. intros num N document. split; reflexivity. Qed.

(** C9.  On a document of N nodes the recursive descent from the root
    emits N nodes: every position of the document once and no other; the
    order is the pre-order, a node before its children and the children in
    structural order. *)
Theorem recursive_descent_is_preorder :
  forall (num : Type) (N : JsNumber num) (root : value num),
    let visited := descend ([], root) in
    visited = preorder [] root
    /\ walk [Descent] [([], root)] = visited
    /\ List.length visited = node_count root
    /\ NoDup (positions visited)
    /\ (forall (q : Position) (w : value num),
           In (q, w) visited <-> lookup root q = Some w)
    /\ (forall n : Node num,
           descend n = n :: List.flat_map descend (child_nodes n)).
Proof.
  intros num N root visited. subst visited.
  assert (E : descend ([], root) = preorder [] root)
    by apply (descend_preorder ([], root)).
  rewrite E. repeat split.
  - cbn [walk List.flat_map apply_segment]. rewrite E. apply List.app_nil_r.
  - apply preorder_length.
  - apply preorder_NoDup.
  - intros Hin. apply in_preorder in Hin as (s & -> & Hs). exact Hs.
  - intros Hs. apply in_preorder. exists q. split; [reflexivity | exact Hs].
  - intros [p v]. rewrite descend_preorder. unfold subtree. cbn [fst snd].
    rewrite preorder_unfold. f_equal.
    apply List.flat_map_ext. intros n. symmetry. apply descend_preorder.
Qed.

End EngineClaims.

(** * What JSON.parse reads is a JSON text *)

Section GrammarFacts.

Lemma push_Some c r body rest :
  JSON.push c r = Some (body, rest) ->
  exists body', r = Some (body', rest).
Proof.
  destruct r as [[b r']|]; [|discriminate]. cbn. intros E.
  inversion E; subst. eexists. reflexivity.
Qed.

(** The strings the reader decodes are strings of the grammar. *)
Lemma parse_string_body_grammar n :
  forall s body rest,
    String.length s <= n ->
    JSON.parse_string_body s = Some (body, rest) ->
    Grammar.string_body s = Some rest.
Proof.
  induction n as [|n IH]; intros s body rest Hlen Hparse.
  - destruct s; [discriminate | cbn in Hlen; lia].
  - destruct s as [|c s']; [discriminate|].
    cbn [JSON.parse_string_body Grammar.string_body] in *.
    cbn [String.length] in Hlen.
    destruct (c =? dquote)%char; [now inversion Hparse|].
    destruct (c =? backslash)%char.
    + destruct s' as [|e s'']; [discriminate|].
      cbn [String.length] in Hlen. unfold Grammar.simple_escape.
      repeat
        match type of Hparse with
        | (if ?b then JSON.push _ _ else _) = _ =>
            destruct b;
            [apply push_Some in Hparse as [body' Hparse];
             rewrite ?orb_true_r; cbn [orb];
             apply (IH _ body'); [lia | exact Hparse] |]
        end.
      cbn [orb].
      destruct (e =? "u")%char; [|discriminate].
      destruct s'' as [|h1 [|h2 [|h3 [|h4 s3]]]]; try discriminate.
      cbn [String.length] in Hlen.
      unfold JSON.hex4 in Hparse. unfold Grammar.hex.
      destruct (JSON.hex_value h1), (JSON.hex_value h2),
        (JSON.hex_value h3), (JSON.hex_value h4); try discriminate.
      cbn [andb].
      match type of Hparse with
      | match (if ?b then _ else _) with _ => _ end = _ =>
          destruct b; [|discriminate]
      end.
      apply push_Some in Hparse as [body' Hparse].
      apply (IH _ body'); [lia | exact Hparse].
    + destruct (N_of_ascii c <? 32)%N; [discriminate|].
      apply push_Some in Hparse as [body' Hparse].
      apply (IH _ body'); [lia | exact Hparse].
Qed.

Context {num : Type} `{JsNumber num}.

Lemma parse_value_S fuel s :
  JSON.parse_value (num := num) (S fuel) s
  = match JSON.skip_ws s with
    | "" => None
    | String c s1 =>
        if num_start c then
          match num_read (String c s1) with
          | Some (n, rest) => Some (JNumber n, rest)
          | None => None
          end
        else if (c =? dquote)%char then
          match JSON.parse_string_body s1 with
          | Some (str, rest) => Some (JString str, rest)
          | None => None
          end
        else if (c =? "[")%char then
          match JSON.closing "]" s1 with
          | Some rest => Some (JArray [], rest)
          | None =>
              match JSON.parse_elements fuel s1 with
              | Some (elements, rest) => Some (JArray elements, rest)
              | None => None
              end
          end
        else if (c =? "{")%char then
          match JSON.closing "}" s1 with
          | Some rest => Some (JObject [], rest)
          | None =>
              match JSON.parse_members fuel s1 with
              | Some (members, rest) => Some (JObject members, rest)
              | None => None
              end
          end
        else if (c =? "t")%char then
          option_map (fun rest => (JBool true, rest)) (JSON.expect "rue" s1)
        else if (c =? "f")%char then
          option_map (fun rest => (JBool false, rest)) (JSON.expect "alse" s1)
        else if (c =? "n")%char then
          option_map (fun rest => (JNull, rest)) (JSON.expect "ull" s1)
        else None
    end.
Proof. reflexivity. Qed.

Lemma value_S fuel s :
  Grammar.value (S fuel) s
  = match JSON.skip_ws s with
    | "" => None
    | String c s1 =>
        if num_start c then Grammar.number (String c s1)
        else if (c =? dquote)%char then Grammar.string_body s1
        else if (c =? "[")%char then
          match JSON.closing "]" s1 with
          | Some rest => Some rest
          | None => Grammar.elements fuel s1
          end
        else if (c =? "{")%char then
          match JSON.closing "}" s1 with
          | Some rest => Some rest
          | None => Grammar.members fuel s1
          end
        else if (c =? "t")%char then JSON.expect "rue" s1
        else if (c =? "f")%char then JSON.expect "alse" s1
        else if (c =? "n")%char then JSON.expect "ull" s1
        else None
    end.
Proof. reflexivity. Qed.

Lemma elements_S fuel s :
  Grammar.elements (S fuel) s
  = match Grammar.value fuel s with
    | None => None
    | Some rest =>
        match JSON.skip_ws rest with
        | String c rest' =>
            if (c =? ",")%char then Grammar.elements fuel rest'
            else if (c =? "]")%char then Some rest'
            else None
        | "" => None
        end
    end.
Proof. reflexivity. Qed.

Lemma members_S fuel s :
  Grammar.members (S fuel) s
  = match JSON.skip_ws s with
    | String q s1 =>
        if (q =? dquote)%char then
          match Grammar.string_body s1 with
          | None => None
          | Some s2 =>
              match JSON.skip_ws s2 with
              | String colon s3 =>
                  if (colon =? ":")%char then
                    match Grammar.value fuel s3 with
                    | None => None
                    | Some rest =>
                        match JSON.skip_ws rest with
                        | String c rest' =>
                            if (c =? ",")%char then Grammar.members fuel rest'
                            else if (c =? "}")%char then Some rest'
                            else None
                        | "" => None
                        end
                    end
                  else None
              | "" => None
              end
          end
        else None
    | "" => None
    end.
Proof. reflexivity. Qed.

(** The instance reads number literals of the grammar and nothing else. *)
Hypothesis num_read_number :
  forall s (n : num) rest,
    num_read s = Some (n, rest) -> Grammar.number s = Some rest.

Lemma parse_value_grammar fuel :
  (forall s (v : value num) rest,
      JSON.parse_value fuel s = Some (v, rest) ->
      Grammar.value fuel s = Some rest)
  /\ (forall s (vs : list (value num)) rest,
         JSON.parse_elements fuel s = Some (vs, rest) ->
         Grammar.elements fuel s = Some rest)
  /\ (forall s (ms : list (string * value num)) rest,
         JSON.parse_members fuel s = Some (ms, rest) ->
         Grammar.members fuel s = Some rest).
Proof.
  induction fuel as [|fuel (IHv & IHe & IHm)].
  - repeat split; intros; discriminate.
  - split; [|split].
    + intros s v rest Hp.
      rewrite parse_value_S in Hp. rewrite value_S.
      destruct (JSON.skip_ws s) as [|c s1]; [discriminate|].
      destruct (num_start c).
      { destruct (num_read (String c s1)) as [[n r]|] eqn:E; [|discriminate].
        inversion Hp; subst. exact (num_read_number _ _ _ E). }
      destruct (c =? dquote)%char.
      { destruct (JSON.parse_string_body s1) as [[str r]|] eqn:E;
          [|discriminate].
        inversion Hp; subst.
        exact (parse_string_body_grammar _ _ _ _ (le_n _) E). }
      destruct (c =? "[")%char.
      { destruct (JSON.closing "]" s1) as [r|]; [now inversion Hp|].
        destruct (JSON.parse_elements fuel s1) as [[es r]|] eqn:E;
          [|discriminate].
        inversion Hp; subst. exact (IHe _ _ _ E). }
      destruct (c =? "{")%char.
      { destruct (JSON.closing "}" s1) as [r|]; [now inversion Hp|].
        destruct (JSON.parse_members fuel s1) as [[ms r]|] eqn:E;
          [|discriminate].
        inversion Hp; subst. exact (IHm _ _ _ E). }
      destruct (c =? "t")%char.
      { destruct (JSON.expect "rue" s1); cbn in Hp;
          [now inversion Hp | discriminate]. }
      destruct (c =? "f")%char.
      { destruct (JSON.expect "alse" s1); cbn in Hp;
          [now inversion Hp | discriminate]. }
      destruct (c =? "n")%char.
      { destruct (JSON.expect "ull" s1); cbn in Hp;
          [now inversion Hp | discriminate]. }
      discriminate.
    + intros s vs rest Hp.
      rewrite parse_elements_S in Hp. rewrite elements_S.
      destruct (JSON.parse_value fuel s) as [[v r]|] eqn:E; [|discriminate].
      rewrite (IHv _ _ _ E).
      destruct (JSON.skip_ws r) as [|c r']; [discriminate|].
      destruct (c =? ",")%char.
      { destruct (JSON.parse_elements fuel r') as [[es r'']|] eqn:E';
          [|discriminate].
        inversion Hp; subst. exact (IHe _ _ _ E'). }
      destruct (c =? "]")%char; [now inversion Hp | discriminate].
    + intros s ms rest Hp.
      rewrite parse_members_S in Hp. rewrite members_S.
      destruct (JSON.skip_ws s) as [|q s1]; [discriminate|].
      destruct (q =? dquote)%char; [|discriminate].
      destruct (JSON.parse_string_body s1) as [[key s2]|] eqn:Ek;
        [|discriminate].
      rewrite (parse_string_body_grammar _ _ _ _ (le_n _) Ek).
      destruct (JSON.skip_ws s2) as [|colon s3]; [discriminate|].
      destruct (colon =? ":")%char; [|discriminate].
      destruct (JSON.parse_value fuel s3) as [[v r]|] eqn:E; [|discriminate].
      rewrite (IHv _ _ _ E).
      destruct (JSON.skip_ws r) as [|c r']; [discriminate|].
      destruct (c =? ",")%char.
      { destruct (JSON.parse_members fuel r') as [[ms' r'']|] eqn:E';
          [|discriminate].
        inversion Hp; subst. exact (IHm _ _ _ E'). }
      destruct (c =? "}")%char; [now inversion Hp | discriminate].
Qed.

Lemma all_ws_skip_ws s : all_ws s = match JSON.skip_ws s with "" => true | _ => false end.
Proof.
  induction s as [|c s IH]; [reflexivity|]. cbn.
  destruct (is_ws c) eqn:E; [exact IH | reflexivity].
Qed.

(** What [JSON.parse] reads is a JSON text. *)
Lemma parse_is_json_text text (v : value num) :
  JSON.parse text = Some v -> Grammar.is_json_text text = true.
Proof.
  unfold JSON.parse, Grammar.is_json_text. intros Hp.
  destruct (JSON.parse_value (S (String.length text)) text) as [[w rest]|] eqn:E;
    [|discriminate].
  rewrite (proj1 (parse_value_grammar _) _ _ _ E), all_ws_skip_ws.
  destruct (JSON.skip_ws rest); [reflexivity | discriminate].
Qed.

End GrammarFacts.

(** The recogniser's fuel is no reason to refuse a text. *)

Section GrammarFuel.

Lemma skip_ws_length s : String.length (JSON.skip_ws s) <= String.length s.
Proof.
  induction s as [|c s IH]; [reflexivity|]. cbn.
  destruct (is_ws c); cbn; lia.
Qed.

Lemma closing_length c s rest :
  JSON.closing c s = Some rest -> String.length rest < String.length s.
Proof.
  unfold JSON.closing. pose proof (skip_ws_length s) as Hs.
  destruct (JSON.skip_ws s) as [|c' r]; [discriminate|].
  destruct (c' =? c)%char; [|discriminate].
  intros E. inversion E; subst. cbn in Hs. lia.
Qed.

Lemma expect_length lit s rest :
  JSON.expect lit s = Some rest -> String.length rest <= String.length s.
Proof.
  revert s. induction lit as [|a lit IH]; intros s E.
  - destruct s; inversion E; subst; reflexivity.
  - destruct s as [|b s]; [discriminate|]. cbn in E.
    destruct (a =? b)%char; [|discriminate].
    apply IH in E. cbn. lia.
Qed.

Lemma digits_length s : String.length (Grammar.digits s) <= String.length s.
Proof.
  induction s as [|c s IH]; [reflexivity|]. cbn.
  destruct (Grammar.digit c); cbn; lia.
Qed.

Lemma digits1_length s rest :
  Grammar.digits1 s = Some rest -> String.length rest < String.length s.
Proof.
  destruct s as [|c s]; [discriminate|]. cbn.
  destruct (Grammar.digit c); [|discriminate].
  intros E. inversion E; subst. pose proof (digits_length s). lia.
Qed.

Lemma int_length s rest :
  Grammar.int s = Some rest -> String.length rest < String.length s.
Proof.
  destruct s as [|c s]; [discriminate|]. cbn.
  destruct (c =? "0")%char; [intros E; inversion E; subst; lia|].
  destruct (Grammar.digit c); [|discriminate].
  intros E. inversion E; subst. pose proof (digits_length s). lia.
Qed.

Lemma frac_length s rest :
  Grammar.frac s = Some rest -> String.length rest <= String.length s.
Proof.
  destruct s as [|c s]; [intros E; inversion E; subst; reflexivity|]. cbn.
  destruct (c =? ".")%char.
  - intros E. apply digits1_length in E. lia.
  - intros E. inversion E; subst. reflexivity.
Qed.

Lemma exp_length s rest :
  Grammar.exp s = Some rest -> String.length rest <= String.length s.
Proof.
  destruct s as [|c s]; [intros E; inversion E; subst; reflexivity|]. cbn.
  destruct ((c =? "e") || (c =? "E"))%char.
  - destruct s as [|sign s']; [discriminate|].
    destruct ((sign =? "+") || (sign =? "-"))%char;
      intros E; apply digits1_length in E; cbn in *; lia.
  - intros E. inversion E; subst. reflexivity.
Qed.

Lemma number_length s rest :
  Grammar.number s = Some rest -> String.length rest < String.length s.
Proof.
  assert (Hu : forall s0,
             Grammar.bind (Grammar.bind (Grammar.int s0) Grammar.frac)
               Grammar.exp = Some rest ->
             String.length rest < String.length s0).
  { intros s0 E.
    destruct (Grammar.int s0) as [r1|] eqn:E1; [|discriminate].
    cbn [Grammar.bind] in E.
    destruct (Grammar.frac r1) as [r2|] eqn:E2; [|discriminate].
    cbn [Grammar.bind] in E.
    apply int_length in E1. apply frac_length in E2. apply exp_length in E.
    lia. }
  unfold Grammar.number. destruct s as [|c s']; [discriminate|].
  destruct (c =? "-")%char; intros E; apply Hu in E; cbn in *; lia.
Qed.

Lemma string_body_length n :
  forall s rest,
    String.length s <= n ->
    Grammar.string_body s = Some rest ->
    String.length rest < String.length s.
Proof.
  induction n as [|n IH]; intros s rest Hlen E.
  - destruct s; [discriminate | cbn in Hlen; lia].
  - destruct s as [|c s']; [discriminate|].
    cbn [Grammar.string_body] in E. cbn [String.length] in *.
    destruct (c =? dquote)%char; [inversion E; subst; lia|].
    destruct (c =? backslash)%char.
    + destruct s' as [|e s'']; [discriminate|]. cbn [String.length] in *.
      destruct (Grammar.simple_escape e).
      { apply IH in E; lia. }
      destruct (e =? "u")%char; [|discriminate].
      destruct s'' as [|h1 [|h2 [|h3 [|h4 s3]]]]; try discriminate.
      cbn [String.length] in *.
      destruct (Grammar.hex h1 && Grammar.hex h2 && Grammar.hex h3
                && Grammar.hex h4); [|discriminate].
      apply IH in E; lia.
    + destruct (N_of_ascii c <? 32)%N; [discriminate|].
      apply IH in E; lia.
Qed.

(** A recognised value has taken at least one character, and is
    recognised with any fuel that is at least the number of characters it
    has taken. *)
Lemma value_fuel fuel :
  (forall s rest,
      Grammar.value fuel s = Some rest ->
      String.length rest < String.length s
      /\ forall fuel', String.length s - String.length rest <= fuel' ->
                       Grammar.value fuel' s = Some rest)
  /\ (forall s rest,
         Grammar.elements fuel s = Some rest ->
         String.length rest < String.length s
         /\ forall fuel', String.length s - String.length rest <= fuel' ->
                          Grammar.elements fuel' s = Some rest)
  /\ (forall s rest,
         Grammar.members fuel s = Some rest ->
         String.length rest < String.length s
         /\ forall fuel', String.length s - String.length rest <= fuel' ->
                          Grammar.members fuel' s = Some rest).
Proof.
  induction fuel as [|fuel (IHv & IHe & IHm)].
  - repeat split; intros; discriminate.
  - split; [|split].
    + intros s rest E. rewrite value_S in E.
      pose proof (skip_ws_length s) as Hs.
      assert (Hscalar :
                forall c s1, JSON.skip_ws s = String c s1 ->
                  String.length rest < String.length (String c s1) ->
                  (forall fuel', Grammar.value (S fuel') s = Some rest) ->
                  String.length rest < String.length s
                  /\ forall fuel',
                       String.length s - String.length rest <= fuel' ->
                       Grammar.value fuel' s = Some rest).
      { intros c s1 Ec Hl Hr. rewrite Ec in Hs. split; [lia|].
        intros [|fuel'] Hf; [lia | apply Hr]. }
      destruct (JSON.skip_ws s) as [|c s1] eqn:Ec; [discriminate|].
      destruct (num_start c) eqn:Hnum.
      { apply (Hscalar c s1 eq_refl (number_length _ _ E)).
        intros fuel'. rewrite value_S, Ec, Hnum. exact E. }
      destruct (c =? dquote)%char eqn:Hq.
      { pose proof (string_body_length _ _ _ (le_n _) E) as Hl.
        apply (Hscalar c s1 eq_refl); [cbn; lia|].
        intros fuel'. rewrite value_S, Ec, Hnum, Hq. exact E. }
      destruct (c =? "[")%char eqn:Ha.
      { destruct (JSON.closing "]" s1) as [r|] eqn:Hc.
        - pose proof (closing_length _ _ _ Hc) as Hl.
          apply (Hscalar c s1 eq_refl); [inversion E; subst; cbn; lia|].
          intros fuel'. rewrite value_S, Ec, Hnum, Hq, Ha, Hc. exact E.
        - destruct (IHe _ _ E) as [Hl Hf]. cbn [String.length] in Hs.
          split; [lia|].
          intros [|fuel'] Hfuel; [lia|].
          rewrite value_S, Ec, Hnum, Hq, Ha, Hc. apply Hf. lia. }
      destruct (c =? "{")%char eqn:Ho.
      { destruct (JSON.closing "}" s1) as [r|] eqn:Hc.
        - pose proof (closing_length _ _ _ Hc) as Hl.
          apply (Hscalar c s1 eq_refl); [inversion E; subst; cbn; lia|].
          intros fuel'.
          rewrite value_S, Ec, Hnum, Hq, Ha, Ho, Hc. exact E.
        - destruct (IHm _ _ E) as [Hl Hf]. cbn [String.length] in Hs.
          split; [lia|].
          intros [|fuel'] Hfuel; [lia|].
          rewrite value_S, Ec, Hnum, Hq, Ha, Ho, Hc. apply Hf. lia. }
      destruct (c =? "t")%char eqn:Ht.
      { pose proof (expect_length _ _ _ E) as Hl.
        apply (Hscalar c s1 eq_refl); [cbn; lia|].
        intros fuel'. rewrite value_S, Ec, Hnum, Hq, Ha, Ho, Ht.
        exact E. }
      destruct (c =? "f")%char eqn:Hfl.
      { pose proof (expect_length _ _ _ E) as Hl.
        apply (Hscalar c s1 eq_refl); [cbn; lia|].
        intros fuel'. rewrite value_S, Ec, Hnum, Hq, Ha, Ho, Ht, Hfl.
        exact E. }
      destruct (c =? "n")%char eqn:Hn; [|discriminate].
      pose proof (expect_length _ _ _ E) as Hl.
      apply (Hscalar c s1 eq_refl); [cbn; lia|].
      intros fuel'. rewrite value_S, Ec, Hnum, Hq, Ha, Ho, Ht, Hfl, Hn.
      exact E.
    + intros s rest E. rewrite elements_S in E.
      destruct (Grammar.value fuel s) as [r1|] eqn:E1; [|discriminate].
      destruct (IHv _ _ E1) as [Hl1 Hf1].
      pose proof (skip_ws_length r1) as Hs.
      destruct (JSON.skip_ws r1) as [|c r'] eqn:Ec; [discriminate|].
      cbn [String.length] in Hs.
      destruct (c =? ",")%char eqn:Hcomma.
      * destruct (IHe _ _ E) as [Hl2 Hf2]. split; [lia|].
        intros [|fuel'] Hfuel; [lia|].
        rewrite elements_S, (Hf1 fuel') by lia. rewrite Ec, Hcomma.
        apply Hf2. lia.
      * destruct (c =? "]")%char eqn:Hclose; [|discriminate].
        inversion E; subst. split; [lia|].
        intros [|fuel'] Hfuel; [lia|].
        rewrite elements_S, (Hf1 fuel') by lia. rewrite Ec, Hcomma, Hclose.
        reflexivity.
    + intros s rest E. rewrite members_S in E.
      pose proof (skip_ws_length s) as Hs0.
      destruct (JSON.skip_ws s) as [|q s1] eqn:Eq; [discriminate|].
      cbn [String.length] in Hs0.
      destruct (q =? dquote)%char eqn:Hq; [|discriminate].
      destruct (Grammar.string_body s1) as [s2|] eqn:Ek; [|discriminate].
      pose proof (string_body_length _ _ _ (le_n _) Ek) as Hk.
      pose proof (skip_ws_length s2) as Hs2.
      destruct (JSON.skip_ws s2) as [|colon s3] eqn:Ecol; [discriminate|].
      cbn [String.length] in Hs2.
      destruct (colon =? ":")%char eqn:Hcol; [|discriminate].
      destruct (Grammar.value fuel s3) as [r1|] eqn:E1; [|discriminate].
      destruct (IHv _ _ E1) as [Hl1 Hf1].
      pose proof (skip_ws_length r1) as Hs.
      destruct (JSON.skip_ws r1) as [|c r'] eqn:Ec; [discriminate|].
      cbn [String.length] in Hs.
      destruct (c =? ",")%char eqn:Hcomma.
      * destruct (IHm _ _ E) as [Hl2 Hf2]. split; [lia|].
        intros [|fuel'] Hfuel; [lia|].
        rewrite members_S, Eq, Hq, Ek, Ecol, Hcol, (Hf1 fuel') by lia.
        rewrite Ec, Hcomma. apply Hf2. lia.
      * destruct (c =? "}")%char eqn:Hclose; [|discriminate].
        inversion E; subst. split; [lia|].
        intros [|fuel'] Hfuel; [lia|].
        rewrite members_S, Eq, Hq, Ek, Ecol, Hcol, (Hf1 fuel') by lia.
        rewrite Ec, Hcomma, Hclose. reflexivity.
Qed.

(** The fuel that [is_json_text] hands over is enough for every text: a
    text recognised with some fuel is a JSON text. *)
Lemma is_json_text_fuel fuel text rest :
  Grammar.value fuel text = Some rest -> all_ws rest = true ->
  Grammar.is_json_text text = true.
Proof.
  intros E Hws. unfold Grammar.is_json_text.
  destruct (proj1 (value_fuel fuel) _ _ E) as [Hl Hf].
  rewrite (Hf (S (String.length text))) by lia. exact Hws.
Qed.

End GrammarFuel.

(** The integers read number literals of the grammar. *)

Section ZGrammar.
Import ZNumber.

Lemma digit_grammar c :
  Grammar.digit c = match digit c with Some _ => true | None => false end.
Proof. destruct c as [[] [] [] [] [] [] [] []]; reflexivity. Qed.

Lemma read_digits_grammar s : snd (read_digits s) = Grammar.digits s.
Proof.
  induction s as [|c s IH]; [reflexivity|].
  cbn [read_digits Grammar.digits]. rewrite digit_grammar.
  destruct (digit c); [|reflexivity].
  destruct (read_digits s). exact IH.
Qed.

Lemma read_digits_Nil s r :
  read_digits s = (Decimal.Nil, r) -> Grammar.digits s = s.
Proof.
  destruct s as [|c s]; [reflexivity|].
  cbn [read_digits Grammar.digits]. rewrite digit_grammar.
  destruct (read_digits s) as [u r'].
  destruct c as [[] [] [] [] [] [] [] []]; cbn; try reflexivity;
    discriminate.
Qed.

Lemma delimited_frac_exp rest :
  num_delimited rest = true ->
  Grammar.bind (Grammar.frac rest) Grammar.exp = Some rest.
Proof.
  destruct rest as [|c rest]; [reflexivity|]. cbn [num_delimited].
  intros Hc. apply negb_true_iff in Hc.
  destruct c as [[] [] [] [] [] [] [] []]; try discriminate Hc; reflexivity.
Qed.

Lemma read_uint_int s u rest :
  read_uint s = Some (u, rest) -> Grammar.int s = Some rest.
Proof.
  unfold read_uint. pose proof (read_digits_grammar s) as Hd.
  destruct s as [|c s']; [discriminate|].
  cbn [read_digits Grammar.int Grammar.digits] in *.
  rewrite digit_grammar in *.
  destruct (digit c) as [d|] eqn:Ec; [|discriminate].
  destruct (read_digits s') as [u' r'] eqn:Er. cbn [snd] in Hd.
  intros E.
  destruct c as [[] [] [] [] [] [] [] []]; try discriminate Ec;
    cbn in Ec; inversion Ec; subst d; cbn [Ascii.eqb Bool.eqb] in *;
    try congruence.
  destruct u'; try discriminate E.
  apply read_digits_Nil in Er. congruence.
Qed.

Lemma ZNumber_read_number s (n : Z) rest :
  num_read s = Some (n, rest) -> Grammar.number s = Some rest.
Proof.
  cbn [num_read Z_JsNumber]. unfold read, Grammar.number.
  assert (Hfinish : forall (neg : bool) s0,
             match read_uint s0 with
             | Some (u, rest0) =>
                 if num_delimited rest0
                 then Some (Z.of_int (if neg then Decimal.Neg u
                                      else Decimal.Pos u), rest0)
                 else None
             | None => None
             end = Some (n, rest) ->
             Grammar.bind (Grammar.bind (Grammar.int s0) Grammar.frac)
               Grammar.exp = Some rest).
  { intros neg s0 E.
    destruct (read_uint s0) as [[u r]|] eqn:Eu; [|discriminate].
    destruct (num_delimited r) eqn:Ed; [|discriminate].
    inversion E; subst. rewrite (read_uint_int _ _ _ Eu).
    cbn [Grammar.bind]. apply delimited_frac_exp, Ed. }
  destruct s as [|c s']; [intros E; cbn in E; discriminate|].
  destruct (c =? "-")%char eqn:Ec.
  - apply Ascii.eqb_eq in Ec. subst c. exact (Hfinish true s').
  - intros E.
    assert (E' : match read_uint (String c s') with
                 | Some (u, rest0) =>
                     if num_delimited rest0
                     then Some (Z.of_int (Decimal.Pos u), rest0)
                     else None
                 | None => None
                 end = Some (n, rest)).
    { destruct c as [[] [] [] [] [] [] [] []]; try discriminate Ec; exact E. }
    exact (Hfinish false _ E').
Qed.

End ZGrammar.

(** * The formatter on the heap *)

Section HeapFacts.
Import Heap.
Local Open Scope nat_scope.
Context {num : Type} `{JsNumber num}.

(** *** The value under a reference *)

Lemma Forall2_functional {A B} (R : A -> B -> Prop) (ys : list B) :
  Forall (fun y => forall x y', R x y -> R x y' -> y = y') ys ->
  forall xs ys', Forall2 R xs ys -> Forall2 R xs ys' -> ys = ys'.
Proof.
  induction 1 as [|y ys Hy _ IH]; intros xs ys' H1 H2;
    inversion H1; subst; inversion H2; subst; [reflexivity|].
  f_equal; eauto.
Qed.

Lemma denotes_functional (h : heap num) (t : value num) :
  forall v t', denotes h v t -> denotes h v t' -> t = t'.
Proof.
  induction t as [|b|n|s|es IH|ms IH] using value_nested_ind;
    intros v t' H1 H2.
  - inversion H1; subst; inversion H2; reflexivity.
  - inversion H1; subst; inversion H2; reflexivity.
  - inversion H1; subst; inversion H2; reflexivity.
  - inversion H1; subst; inversion H2; reflexivity.
  - inversion H1 as [| | | |l vs es1 Hl Hvs|]; subst.
    inversion H2 as [| | | |l2 vs' es' Hl' Hvs'|l2 ps' ms' Hl' Hps'];
      subst; [|congruence].
    assert (vs' = vs) by congruence. subst vs'. f_equal.
    exact (Forall2_functional _ _ IH _ _ Hvs Hvs').
  - inversion H1 as [| | | | |l ps ms1 Hl Hps]; subst.
    inversion H2 as [| | | |l2 vs' es' Hl' Hvs'|l2 ps' ms' Hl' Hps'];
      subst; [congruence|].
    assert (ps' = ps) by congruence. subst ps'. f_equal.
    refine (Forall2_functional _ _ _ _ _ Hps Hps').
    eapply Forall_impl; [|exact IH].
    intros [k t] IHt [k1 x] [k' t'] [Hk Hx] [Hk' Hx']. cbn [fst snd] in *.
    f_equal; [congruence | eauto].
Qed.

(** *** JSON.stringify on the heap and on the value *)

Lemma mapM_exact {A B C} (f : A -> exn + C) (fits : B -> bool) (g : B -> C)
    (xs : list A) (ys : list B) :
  Forall2 (fun x y => f x = if fits y then inr (g y) else inl RangeError)
    xs ys ->
  mapM f xs
  = if forallb fits ys then inr (List.map g ys) else inl RangeError.
Proof.
  induction 1 as [|x y xs ys E _ IH]; [reflexivity|].
  cbn [mapM forallb List.map]. rewrite E, IH.
  destruct (fits y), (forallb fits ys); reflexivity.
Qed.

Lemma Forall2_Forall_r {A B} (R : A -> B -> Prop) (Q : B -> Prop) xs ys :
  Forall2 R xs ys -> Forall Q ys ->
  Forall2 (fun x y => R x y /\ Q y) xs ys.
Proof.
  induction 1 as [|x y xs ys Hxy _ IH]; intros HQ; [constructor|].
  inversion HQ; subst. constructor; auto.
Qed.

Lemma list_max_bound {A} (f : A -> nat) (l : list A) (n : nat) :
  (list_max (List.map f l) <=? n) = forallb (fun x => f x <=? n) l.
Proof.
  induction l as [|x l IH]; [reflexivity|].
  cbn [List.map list_max forallb fold_right]. rewrite <- IH.
  change (fold_right Nat.max 0 (List.map f l))
    with (list_max (List.map f l)).
  destruct (f x <=? n) eqn:E1, (list_max (List.map f l) <=? n) eqn:E2;
    cbn [andb];
    [apply Nat.leb_le; apply Nat.leb_le in E1, E2; lia
    |apply Nat.leb_gt; apply Nat.leb_gt in E2; lia
    |apply Nat.leb_gt; apply Nat.leb_gt in E1; lia
    |apply Nat.leb_gt; apply Nat.leb_gt in E1; lia].
Qed.

Lemma list_max_In {A} (f : A -> nat) (l : list A) :
  Forall (fun x => f x <= list_max (List.map f l)) l.
Proof.
  apply Forall_forall. intros x Hx.
  pose proof (proj1 (list_max_le (List.map f l) _) (le_n _)) as Hall.
  rewrite Forall_forall in Hall. apply Hall, in_map, Hx.
Qed.

Lemma not_on_the_stack (l : loc) (stack : list loc) :
  ~ In l stack -> existsb (Nat.eqb l) stack = false.
Proof.
  intros Hl. destruct (existsb (Nat.eqb l) stack) eqn:E; [|reflexivity].
  apply existsb_exists in E as (a & Ha & Ea).
  apply Nat.eqb_eq in Ea. subst a. contradiction.
Qed.

(** On a value of the heap that holds a JSON value, JSON.stringify gives
    the text of that value when it is nested no deeper than there are
    frames, and the RangeError otherwise; the objects on the stack being
    ones that hold deeper values (the ones around it). *)
Lemma serialize_denotes (h : heap num) (gap : string) (t : value num) :
  forall v frames stack indent,
    denotes h v t ->
    (forall a ta, In a stack -> denotes h (VRef a) ta -> depth t < depth ta) ->
    SerializeJSONProperty frames h stack gap indent v
    = if depth t <=? frames
      then inr (JSON.SerializeJSONProperty gap indent t)
      else inl RangeError.
Proof.
  induction t as [|b|n|s|es IH|ms IH] using value_nested_ind;
    intros v frames stack indent Hv Hstack.
  - inversion Hv; subst. destruct frames; reflexivity.
  - inversion Hv; subst. destruct frames, b; reflexivity.
  - inversion Hv; subst. destruct frames; reflexivity.
  - inversion Hv; subst. destruct frames; reflexivity.
  - inversion Hv as [| | | |l vs es1 Hl Hvs|]; subst.
    destruct frames as [|frames]; [reflexivity|].
    cbn [SerializeJSONProperty].
    rewrite not_on_the_stack.
    2:{ intros Hin. specialize (Hstack l _ Hin Hv). lia. }
    rewrite Hl.
    rewrite (mapM_exact _ (fun e => depth e <=? frames)
               (JSON.SerializeJSONProperty gap (indent ++ gap)) vs es).
    + cbn [depth]. change (S ?a <=? S ?b) with (a <=? b).
      rewrite list_max_bound.
      destruct (forallb (fun e => depth e <=? frames) es); reflexivity.
    + pose proof (Forall2_Forall_r _ _ _ _ Hvs
                    (Forall_and IH (list_max_In depth es))) as Hall.
      eapply Forall2_impl; [|exact Hall].
      intros x e (Hx & IHe & Hd). cbn beta in *. apply IHe; [exact Hx|].
      intros a ta [<-|Hin] Ha.
      * rewrite <- (denotes_functional _ _ _ _ Hv Ha). cbn [depth]. lia.
      * specialize (Hstack a ta Hin Ha). cbn [depth] in Hstack. lia.
  - inversion Hv as [| | | | |l ps ms1 Hl Hps]; subst.
    destruct frames as [|frames]; [reflexivity|].
    cbn [SerializeJSONProperty].
    rewrite not_on_the_stack.
    2:{ intros Hin. specialize (Hstack l _ Hin Hv). lia. }
    rewrite Hl.
    rewrite (mapM_exact _ (fun kv => depth (snd kv) <=? frames)
               (fun kv : string * value num =>
                  match gap with
                  | "" => JSON.QuoteJSONString (fst kv) ++ ":"
                  | _ => (JSON.QuoteJSONString (fst kv) ++ ":") ++ " "
                  end ++ JSON.SerializeJSONProperty gap (indent ++ gap)
                           (snd kv))
               ps ms).
    + cbn [depth]. change (S ?a <=? S ?b) with (a <=? b).
      rewrite (list_max_bound (fun kv : string * value num => depth (snd kv))).
      destruct (forallb (fun kv => depth (snd kv) <=? frames) ms);
        reflexivity.
    + pose proof (Forall2_Forall_r _ _ _ _ Hps
                    (Forall_and IH
                       (list_max_In (fun kv : string * value num =>
                                       depth (snd kv)) ms))) as Hall.
      eapply Forall2_impl; [|exact Hall].
      intros [k x] [k' e] ((Hk & Hx) & IHe & Hd). cbn [fst snd] in *.
      subst k'. rewrite (IHe x frames (l :: stack) (indent ++ gap) Hx).
      * destruct (depth e <=? frames); reflexivity.
      * intros a ta [<-|Hin] Ha.
        -- rewrite <- (denotes_functional _ _ _ _ Hv Ha). cbn [depth]. lia.
        -- specialize (Hstack a ta Hin Ha). cbn [depth] in Hstack. lia.
Qed.

Lemma convertResultToString_denotes (h : heap num) frames v (m : value num) :
  denotes h v m ->
  convertResultToString frames h v
  = if depth m <=? frames
    then inr (ResultFormatter.convertResultToString m)
    else inl RangeError.
Proof.
  intros Hv.
  assert (Hs : stringify frames h v 0
               = if depth m <=? frames
                 then inr (JSON.stringify m 0)
                 else inl RangeError).
  { unfold stringify, JSON.stringify. apply serialize_denotes; [exact Hv|].
    intros a ta []. }
  inversion Hv; subst; try exact Hs; reflexivity.
Qed.

(** What [format] returns on the matches that an array of the heap
    holds. *)
Lemma format_denotes (h : heap num) frames results (ms : list (value num)) :
  denotes h (VRef results) (JArray ms) ->
  format frames h results true
  = (h, if depth (JArray ms) <=? frames
        then inr (ResultFormatter.format ms true)
        else inl RangeError)
  /\ format frames h results false
     = if forallb (fun m => depth m <=? frames) ms
       then ((h ++ [OArray
                      (List.map VString
                         (List.map ResultFormatter.convertResultToString
                            ms))])%list,
             inr (ResultFormatter.format ms false))
       else (h, inl RangeError).
Proof.
  intros Hv. split.
  - unfold format, stringify, ResultFormatter.format, JSON.stringify.
    f_equal. apply serialize_denotes; [exact Hv|]. intros a ta [].
  - inversion Hv as [| | | |l vs es Hl Hvs|]; subst.
    unfold format. rewrite Hl.
    rewrite (mapM_exact _ (fun m => depth m <=? frames)
               ResultFormatter.convertResultToString vs ms).
    + destruct (forallb (fun m => depth m <=? frames) ms); reflexivity.
    + eapply Forall2_impl; [|exact Hvs].
      intros v m Hm. apply convertResultToString_denotes, Hm.
Qed.

(** *** What a call leaves of the heap, and a second call *)

Lemma lookup_app (h h' : heap num) l o :
  lookup h l = Some o -> lookup (h ++ h')%list l = Some o.
Proof.
  unfold lookup. intros E. rewrite nth_error_app1; [exact E|].
  apply nth_error_Some. congruence.
Qed.

Lemma mapM_ext_inr {A B} (f g : A -> exn + B) (l : list A) ys :
  (forall x y, In x l -> f x = inr y -> g x = inr y) ->
  mapM f l = inr ys -> mapM g l = inr ys.
Proof.
  revert ys. induction l as [|x l IH]; intros ys Hfg E; [exact E|].
  cbn [mapM] in *.
  destruct (f x) as [e|y] eqn:Ex; [discriminate|].
  rewrite (Hfg x y (or_introl eq_refl) Ex).
  destruct (mapM f l) as [e|ys'] eqn:El; [discriminate|].
  rewrite (IH ys'); [exact E | | reflexivity].
  intros x' y' Hin. apply Hfg. right. exact Hin.
Qed.

(** A text that JSON.stringify has written is written again on a heap
    with more objects. *)
Lemma serialize_app (h h' : heap num) gap frames :
  forall stack indent v str,
    SerializeJSONProperty frames h stack gap indent v = inr str ->
    SerializeJSONProperty frames (h ++ h')%list stack gap indent v = inr str.
Proof.
  induction frames as [|frames IH]; intros stack indent v str E.
  - destruct v; exact E.
  - destruct v as [| | | |l]; try exact E.
    cbn [SerializeJSONProperty] in *.
    destruct (existsb (Nat.eqb l) stack); [discriminate|].
    destruct (lookup h l) as [[vs|ps]|] eqn:El; [| |discriminate];
      rewrite (lookup_app _ h' _ _ El).
    + destruct (mapM (SerializeJSONProperty frames h (l :: stack) gap
                        (indent ++ gap)) vs) as [e|partial] eqn:Em;
        [discriminate|].
      rewrite (mapM_ext_inr _
                 (SerializeJSONProperty frames (h ++ h')%list (l :: stack) gap
                    (indent ++ gap)) _ _ (fun x y _ => IH _ _ x y) Em).
      exact E.
    + match type of E with
      | match mapM ?f ps with _ => _ end = _ =>
          destruct (mapM f ps) as [e|partial] eqn:Em; [discriminate|]
      end.
      erewrite mapM_ext_inr; [exact E | | exact Em].
      intros x y _ Ex. cbv beta in *.
      destruct (SerializeJSONProperty frames h (l :: stack) gap
                  (indent ++ gap) (snd x)) as [e|sx] eqn:Es; [discriminate|].
      rewrite (IH _ _ _ _ Es). exact Ex.
Qed.

Lemma convertResultToString_app (h h' : heap num) frames v str :
  convertResultToString frames h v = inr str ->
  convertResultToString frames (h ++ h')%list v = inr str.
Proof.
  destruct v; try exact (fun E => E);
    unfold convertResultToString, stringify; apply serialize_app.
Qed.

(** [format] leaves every object of the heap as it was, and a second call
    on the same array returns what the first did. *)
Lemma format_again (h : heap num) frames results createJson :
  (forall l o, lookup h l = Some o ->
               lookup (fst (format frames h results createJson)) l = Some o)
  /\ snd (format frames (fst (format frames h results createJson)) results
            createJson)
     = snd (format frames h results createJson).
Proof.
  unfold format. destruct createJson; [split; [intros l o E; exact E|]; reflexivity|].
  destruct (lookup h results) as [[vs|ps]|] eqn:El;
    try (cbn [fst snd]; rewrite El; split; [intros l o E; exact E|];
         reflexivity).
  destruct (mapM (convertResultToString frames h) vs) as [e|strings] eqn:Em.
  - cbn [fst snd]. rewrite El, Em. split; [intros l o E; exact E|].
    reflexivity.
  - cbn [alloc fst snd]. split; [intros l o E; apply lookup_app, E|].
    rewrite (lookup_app _ _ _ _ El).
    rewrite (mapM_ext_inr _ (convertResultToString frames (h ++ _)%list) _ _
               (fun x y _ => convertResultToString_app _ _ _ x y) Em).
    reflexivity.
Qed.

(** *** Arrays nested deeper than the stack *)




End HeapFacts.

(** * The claims about the formatter as it runs *)

Section HeapClaims.
Import Heap.
Local Open Scope nat_scope.




(** C7.  [format] has no side effect: the call leaves every object of the
    heap as it was (the array it builds in plain mode is a new one).  It is
    deterministic: a second call on the same matches returns what the first
    did, string or error; and so do two calls on any two heaps in which the
    arrays hold the same Match Set, whichever objects are shared there. *)
Theorem format_is_pure :
  forall (num : Type) (N : JsNumber num) (frames : nat) (h : heap num)
         (results : loc) (createJson : bool),
    (forall l o,
        lookup h l = Some o ->
        lookup (fst (format frames h results createJson)) l = Some o)
    /\ snd (format frames (fst (format frames h results createJson)) results
              createJson)
       = snd (format frames h results createJson)
    /\ (forall (h' : heap num) (results' : loc) (ms : list (value num)),
           denotes h (VRef results) (JArray ms) ->
           denotes h' (VRef results') (JArray ms) ->
           snd (format frames h' results' createJson)
           = snd (format frames h results createJson)).
Proof.
  intros num N frames h results createJson.
  destruct (format_again h frames results createJson) as [Hkeep Hagain].
  split; [exact Hkeep|]. split; [exact Hagain|].
  intros h' results' ms Hv Hv'.
  destruct (format_denotes h frames results ms Hv) as [Hjson Hplain].
  destruct (format_denotes h' frames results' ms Hv') as [Hjson' Hplain'].
  destruct createJson.
  - rewrite Hjson, Hjson'. reflexivity.
  - rewrite Hplain, Hplain'.
    destruct (forallb (fun m => depth m <=? frames) ms); reflexivity.
Qed.

Lemma format_is_pure_witness :
  let shared : heap Z := [OObject [("a", VNumber 1%Z)];
                          OArray [VRef 0; VRef 0]] in
  let apart : heap Z := [OArray [VRef 1; VRef 2];
                         OObject [("a", VNumber 1%Z)];
                         OObject [("a", VNumber 1%Z)]] in
  snd (format 3 apart 0 false) = snd (format 3 shared 1 false).
Proof.
  intros shared apart.
  apply (proj2 (proj2 (format_is_pure Z Z_JsNumber 3 shared 1 false))
           apart 0
           [JObject [("a", JNumber 1%Z)]; JObject [("a", JNumber 1%Z)]]).
  - apply (denotes_array shared 1 [VRef 0; VRef 0]); [reflexivity|].
    repeat constructor;
      apply (denotes_object shared 0 [("a", VNumber 1%Z)]);
      try reflexivity; repeat constructor.
  - apply (denotes_array apart 0 [VRef 1; VRef 2]); [reflexivity|].
    repeat constructor;
      [apply (denotes_object apart 1 [("a", VNumber 1%Z)])
      |apply (denotes_object apart 2 [("a", VNumber 1%Z)])];
      try reflexivity; repeat constructor.
Defined.

End HeapClaims.

(** * More of the extension: what run and runSavedQuery call, and when *)

Section CallFacts.
Import JsonPathExtension Calls.
Import ITreeNotations.
Local Open Scope itree_scope.
Context {num : Type} `{JsNumber num}.

Lemma calls_bind_ret {A R} fuel (host : forall T, callE num T -> T) (a : A)
    (k : A -> itree (callE num) R) :
  calls fuel host (ITree.bind (Ret a) k) = calls fuel host (k a).
Proof. destruct fuel; reflexivity. Qed.

Lemma calls_bind_trigger {T R} fuel (host : forall T, callE num T -> T) (e : callE num T)
    (k : T -> itree (callE num) R) :
  calls (S fuel) host (ITree.bind (ITree.trigger e) k)
  = let (made, r) := calls fuel host (k (host _ e)) in (call e :: made, r).
Proof.
  cbn [calls]. cbn [observe]. cbn. destruct fuel; reflexivity.
Qed.

Lemma calls_trigger {T} fuel (host : forall T, callE num T -> T) (e : callE num T) :
  calls (S (S fuel)) host (ITree.trigger e) = ([call e], Some (host _ e)).
Proof. reflexivity. Qed.

Lemma calls_ret {R} fuel (host : forall T, callE num T -> T) (r : R) :
  calls (S fuel) host (Ret r : itree (callE num) R) = ([], Some r).
Proof. reflexivity. Qed.

Lemma calls_showContent fuel (host : forall T, callE num T -> T) content createJson column :
  calls (4 + fuel) host (showContent content createJson column)
  = (shown host content createJson column, Some tt).
Proof.
  unfold showContent, shown.
  change (4 + fuel) with (S (S (S (S fuel)))).
  rewrite calls_bind_trigger, calls_bind_trigger, calls_trigger.
  destruct (host unit (showTextDocument _ _)). reflexivity.
Qed.

Lemma calls_handleError fuel (host : forall T, callE num T -> T) r :
  calls (2 + fuel) host (handleError r) = (report r, Some tt).
Proof.
  unfold handleError, report. change (2 + fuel) with (S (S fuel)).
  destruct (status r); try rewrite calls_trigger; try reflexivity;
    match goal with |- context [host unit ?e] => destruct (host unit e) end;
    reflexivity.
Qed.


Lemma getJsonObject_accepts editor (doc : value num) :
  JSON.parse (document_getText editor) = Some doc ->
  instanceof_Object doc = true ->
  getJsonObject editor = Some doc.
Proof. intros Hp Ho. unfold getJsonObject. now rewrite Hp, Ho. Qed.

Lemma calls_showResult_success fuel (host : forall T, callE num T -> T) editor
    (r : ProcessQueryResult num) ms createJson :
  status r = Success -> result r = Some ms ->
  calls (5 + fuel) host (showResult editor r createJson)
  = (call (format ms createJson)
       :: shown host (host _ (format ms createJson)) createJson
            (nextColumn editor),
     Some tt).
Proof.
  intros Hs Hr. unfold showResult. rewrite Hr, Hs. cbn [status_eqb negb].
  change (5 + fuel) with (S (4 + fuel)).
  rewrite calls_bind_trigger, calls_showContent. reflexivity.
Qed.

Lemma calls_showResult_failure fuel (host : forall T, callE num T -> T) editor
    (r : ProcessQueryResult num) createJson :
  status r <> Success \/ result r = None ->
  calls (2 + fuel) host (showResult editor r createJson) = (report r, Some tt).
Proof.
  intros Hr. unfold showResult.
  destruct (result r) as [ms|] eqn:E.
  - destruct Hr as [Hs | Hn]; [|discriminate Hn].
    destruct (status r) eqn:Es; try contradiction; cbn [status_eqb negb];
      rewrite calls_handleError; unfold report; rewrite Es, ?E; reflexivity.
  - rewrite calls_handleError. reflexivity.
Qed.

(** X1.  Without an active editor, or with one whose text is no JSON text
    (ECMA-404's grammar, on which JSON.parse throws its SyntaxError), run
    and runSavedQuery make one call, the error message of the missing JSON
    document, and end: no input box, configuration, engine or formatter
    call follows.  (The number instance reads number literals of the
    grammar and nothing else.) *)
Theorem run_needs_a_json_document
    (activeTextEditor : option TextEditor) (createJson : bool)
    (host : forall T, callE num T -> T) (fuel : nat) :
  (forall s (n : num) rest,
      num_read s = Some (n, rest) -> Grammar.number s = Some rest) ->
  match activeTextEditor with
  | None => True
  | Some editor => Grammar.is_json_text (document_getText editor) = false
  end ->
  calls (2 + fuel) host (run activeTextEditor createJson)
  = ([call (showErrorMessage NoJsonDocumentErrorMsg)], Some tt)
  /\ calls (2 + fuel) host (runSavedQuery activeTextEditor)
     = ([call (showErrorMessage NoJsonDocumentErrorMsg)], Some tt).
Proof.
  intros Hnum Hdoc. unfold run, runSavedQuery.
  destruct activeTextEditor as [editor|].
  - assert (Hparse : JSON.parse (num := num) (document_getText editor) = None).
    { destruct (JSON.parse (document_getText editor)) as [v|] eqn:E;
        [|reflexivity].
      rewrite (parse_is_json_text Hnum _ _ E) in Hdoc. discriminate Hdoc. }
    unfold getJsonObject. rewrite Hparse. change (2 + fuel) with (S (S fuel)).
    rewrite !calls_trigger.
    destruct (host unit (showErrorMessage NoJsonDocumentErrorMsg)).
    split; reflexivity.
  - change (2 + fuel) with (S (S fuel)). rewrite !calls_trigger.
    destruct (host unit (showErrorMessage NoJsonDocumentErrorMsg)).
    split; reflexivity.
Qed.

(** X2.  With a JSON array or object in the editor, run asks for the path
    with the prompt and ignoreFocusOut; when the input box is dismissed it
    ends there, and that question is its only call. *)
Theorem run_cancelled editor (doc : value num) createJson
    (host : forall T, callE num T -> T) fuel :
  JSON.parse (document_getText editor) = Some doc ->
  instanceof_Object doc = true ->
  host _ (showInputBox EnterJsonPathPrompt true) = None ->
  calls (2 + fuel) host (run (Some editor) createJson)
  = ([call (showInputBox EnterJsonPathPrompt true)], Some tt).
Proof.
  intros Hp Ho Hin. unfold run. rewrite (getJsonObject_accepts _ _ Hp Ho).
  change (2 + fuel) with (S (S fuel)).
  rewrite calls_bind_trigger, Hin. reflexivity.
Qed.

(** X3.  With a JSON array or object in the editor, an input q and the
    answer Success with matches ms, run makes these calls in this order:
    the input box, the engine on q and the parsed document, the formatter
    on ms and the flag, and the three calls of showContent on what the
    formatter returned: the document is opened from the encoded content,
    its language is set to json or plaintext by the flag, and it is shown
    in the column after the editor's.  (The objects of the document
    have pairwise different member names, none written with digits only:
    JavaScript's JSON.parse then lists their members as the text has
    them.) *)
Theorem run_shows_the_result editor (doc : value num) createJson q ms
    (host : forall T, callE num T -> T) fuel :
  JSON.parse (document_getText editor) = Some doc ->
  instanceof_Object doc = true ->
  JSON.members_kept doc = true ->
  host _ (showInputBox EnterJsonPathPrompt true) = Some q ->
  host _ (processQuery q doc) = {| status := Success; result := Some ms |} ->
  calls (7 + fuel) host (run (Some editor) createJson)
  = (call (showInputBox EnterJsonPathPrompt true)
       :: call (processQuery q doc)
       :: call (format ms createJson)
       :: shown host (host _ (format ms createJson)) createJson
            (nextColumn editor),
     Some tt).
Proof.
  intros Hp Ho _ Hin Hr. unfold run. rewrite (getJsonObject_accepts _ _ Hp Ho).
  change (7 + fuel) with (S (S (5 + fuel))).
  rewrite calls_bind_trigger, Hin, calls_bind_trigger.
  rewrite (calls_showResult_success fuel host editor _ ms createJson);
    [reflexivity | now rewrite Hr | now rewrite Hr].
Qed.

(** X4.  When the engine's status is not Success, or its result is
    undefined, run calls after the input box and the engine only what
    handleError reports: the invalid-path error, the no-results
    information, the payload on the console for Error, and nothing for
    Success without a result.  The formatter is not called and no document
    is opened.  (The objects of the document
    have pairwise different member names, none written with digits only:
    JavaScript's JSON.parse then lists their members as the text has
    them.) *)
Theorem run_reports_the_failure editor (doc : value num) createJson q
    (host : forall T, callE num T -> T) fuel :
  JSON.parse (document_getText editor) = Some doc ->
  instanceof_Object doc = true ->
  JSON.members_kept doc = true ->
  host _ (showInputBox EnterJsonPathPrompt true) = Some q ->
  status (host _ (processQuery q doc)) <> Success
  \/ result (host _ (processQuery q doc)) = None ->
  calls (4 + fuel) host (run (Some editor) createJson)
  = (call (showInputBox EnterJsonPathPrompt true)
       :: call (processQuery q doc)
       :: report (host _ (processQuery q doc)),
     Some tt).
Proof.
  intros Hp Ho _ Hin Hr. unfold run. rewrite (getJsonObject_accepts _ _ Hp Ho).
  change (4 + fuel) with (S (S (2 + fuel))).
  rewrite calls_bind_trigger, Hin, calls_bind_trigger.
  rewrite (calls_showResult_failure fuel host editor _ createJson Hr).
  reflexivity.
Qed.


Lemma calls_bind_bind_trigger {T A R} fuel (host : forall T, callE num T -> T)
    (e : callE num T) (k1 : T -> itree (callE num) A)
    (k2 : A -> itree (callE num) R) :
  calls (S fuel) host (ITree.bind (ITree.bind (ITree.trigger e) k1) k2)
  = let (made, r) := calls fuel host (ITree.bind (k1 (host _ e)) k2) in
    (call e :: made, r).
Proof. cbn [calls]. cbn [observe]. cbn. destruct fuel; reflexivity. Qed.

Lemma calls_selectSavedQuery fuel (host : forall T, callE num T -> T) queries :
  calls (2 + fuel) host (selectSavedQuery queries)
  = ([call (showQuickPick (List.map quickPick_of queries) true)],
     Some (selected queries
             (host _ (showQuickPick (List.map quickPick_of queries) true)))).
Proof.
  unfold selectSavedQuery. change (2 + fuel) with (S (S fuel)).
  rewrite calls_bind_trigger. unfold Lodash.map.
  change (List.map (fun q => {| label := title q; detail := query q;
                                description := "" |}) queries)
    with (List.map quickPick_of queries).
  destruct (host _ (showQuickPick (List.map quickPick_of queries) true));
    reflexivity.
Qed.

(** The first saved query with a given query text. *)
Lemma find_by_query (queries : list SavedQuery) (q : SavedQuery) :
  In q queries ->
  exists before first after,
    queries = (before ++ first :: after)%list
    /\ query first = query q
    /\ Forall (fun sq => query sq <> query q) before
    /\ List.find (fun sq => String.eqb (query sq) (query q)) queries
       = Some first.
Proof.
  induction queries as [|x qs IH]; intros Hin; [contradiction|].
  cbn [List.find]. destruct (String.eqb_spec (query x) (query q)) as [E|NE].
  - exists [], x, qs. repeat split; [exact E | constructor].
  - destruct Hin as [->|Hin]; [contradiction NE; reflexivity|].
    destruct (IH Hin) as (before & first & after & -> & Hq & Hb & Hf).
    exists (x :: before), first, after. repeat split; try assumption.
    constructor; assumption.
Qed.

(** X5.  selectSavedQuery shows one quick pick, with an item per saved
    query in their order, and returns the first saved query whose query
    text is that of the picked item: of two saved queries with the same
    text, picking either gives the earlier one. *)
Theorem selectSavedQuery_first_match (queries : list SavedQuery) (q : SavedQuery)
    (host : forall T, callE num T -> T) (fuel : nat) :
  In q queries ->
  host _ (showQuickPick (List.map quickPick_of queries) true)
  = Some (quickPick_of q) ->
  exists before first after,
    queries = (before ++ first :: after)%list
    /\ query first = query q
    /\ Forall (fun sq => query sq <> query q) before
    /\ calls (2 + fuel) host (selectSavedQuery queries)
       = ([call (showQuickPick (List.map quickPick_of queries) true)],
          Some (Some first)).
Proof.
  intros Hin Hpick.
  destruct (find_by_query queries q Hin)
    as (before & first & after & E & Hq & Hb & Hf).
  exists before, first, after. repeat split; try assumption.
  rewrite calls_selectSavedQuery, Hpick. unfold selected. cbn [detail quickPick_of].
  rewrite Hf. reflexivity.
Qed.

Lemma find_by_query_NoDup (queries : list SavedQuery) (q : SavedQuery) :
  NoDup (List.map query queries) -> In q queries ->
  List.find (fun sq => String.eqb (query sq) (query q)) queries = Some q.
Proof.
  induction queries as [|x qs IH]; intros Hnd Hin; [contradiction|].
  cbn [List.map] in Hnd. inversion_clear Hnd as [|? ? Hx Hqs].
  cbn [List.find]. destruct (String.eqb_spec (query x) (query q)) as [E|NE].
  - destruct Hin as [->|Hin]; [reflexivity|].
    exfalso. apply Hx. rewrite E. apply in_map. exact Hin.
  - destruct Hin as [->|Hin]; [contradiction NE; reflexivity|].
    apply IH; assumption.
Qed.

Lemma find_no_query (queries : list SavedQuery) (text : string) :
  Forall (fun sq => query sq <> text) queries ->
  List.find (fun sq => String.eqb (query sq) text) queries = None.
Proof.
  induction 1 as [|x l Hx _ IH]; [reflexivity|].
  cbn [List.find]. destruct (String.eqb_spec (query x) text);
    [contradiction | exact IH].
Qed.

(** X7.  With a JSON array or object in the editor and no saved query (the
    setting undefined or empty), runSavedQuery reads the setting
    jsonPathExtract.savedQueries, shows the error message of the missing
    saved queries and ends. *)
Theorem runSavedQuery_without_queries editor (doc : value num)
    (host : forall T, callE num T -> T) fuel :
  JSON.parse (document_getText editor) = Some doc ->
  instanceof_Object doc = true ->
  host _ (getConfiguration "jsonPathExtract" "savedQueries") = None
  \/ host _ (getConfiguration "jsonPathExtract" "savedQueries") = Some [] ->
  calls (3 + fuel) host (runSavedQuery (Some editor))
  = ([call (getConfiguration "jsonPathExtract" "savedQueries");
      call (showErrorMessage NoSavedQueriesErrorMsg)], Some tt).
Proof.
  intros Hp Ho Hcfg. unfold runSavedQuery, getSavedQueries.
  rewrite (getJsonObject_accepts _ _ Hp Ho).
  change (3 + fuel) with (S (S (S fuel))). rewrite calls_bind_trigger.
  destruct Hcfg as [-> | ->]; rewrite calls_trigger;
    destruct (host unit (showErrorMessage NoSavedQueriesErrorMsg));
    reflexivity.
Qed.

(** X8.  When the quick pick is dismissed, or answers an item whose detail
    is the text of no saved query, runSavedQuery ends after reading the
    setting and showing the quick pick: the engine is not called. *)
Theorem runSavedQuery_without_selection editor (doc : value num)
    (q0 : SavedQuery) (rest : list SavedQuery)
    (host : forall T, callE num T -> T) fuel :
  let queries := q0 :: rest in
  let items := List.map quickPick_of queries in
  JSON.parse (document_getText editor) = Some doc ->
  instanceof_Object doc = true ->
  host _ (getConfiguration "jsonPathExtract" "savedQueries") = Some queries ->
  match host _ (showQuickPick items true) with
  | None => True
  | Some pick => Forall (fun sq => query sq <> detail pick) queries
  end ->
  calls (3 + fuel) host (runSavedQuery (Some editor))
  = ([call (getConfiguration "jsonPathExtract" "savedQueries");
      call (showQuickPick items true)], Some tt).
Proof.
  intros queries items Hp Ho Hcfg Hpick. unfold runSavedQuery, getSavedQueries.
  rewrite (getJsonObject_accepts _ _ Hp Ho).
  change (3 + fuel) with (S (S (S fuel))). rewrite calls_bind_trigger, Hcfg.
  subst queries. cbv beta iota. unfold selectSavedQuery.
  rewrite calls_bind_bind_trigger. unfold Lodash.map.
  change (List.map (fun q => {| label := title q; detail := query q;
                                description := "" |}) (q0 :: rest))
    with items.
  destruct (host _ (showQuickPick items true)) as [pick|].
  - rewrite calls_bind_ret.
    rewrite (find_no_query _ _ Hpick). reflexivity.
  - rewrite calls_bind_ret. reflexivity.
Qed.

(** X9.  When the item of a saved query q is picked and the engine answers
    Success with matches ms, runSavedQuery reads the setting, shows the
    quick pick, calls the engine on q's text and the parsed document, and
    formats and shows ms with the flag of the first saved query that has
    q's text: JSON for the output Json, plain text otherwise.  (The objects of the document
    have pairwise different member names, none written with digits only:
    JavaScript's JSON.parse then lists their members as the text has
    them.) *)
Theorem runSavedQuery_shows_the_result editor (doc : value num)
    (queries : list SavedQuery) (q : SavedQuery) ms
    (host : forall T, callE num T -> T) fuel :
  let items := List.map quickPick_of queries in
  JSON.parse (document_getText editor) = Some doc ->
  instanceof_Object doc = true ->
  JSON.members_kept doc = true ->
  host _ (getConfiguration "jsonPathExtract" "savedQueries") = Some queries ->
  In q queries ->
  host _ (showQuickPick items true) = Some (quickPick_of q) ->
  host _ (processQuery (query q) doc)
  = {| status := Success; result := Some ms |} ->
  exists before first after,
    queries = (before ++ first :: after)%list
    /\ query first = query q
    /\ Forall (fun sq => query sq <> query q) before
    /\ let createJson :=
         match output first with Json => true | Text => false end in
       calls (8 + fuel) host (runSavedQuery (Some editor))
       = (call (getConfiguration "jsonPathExtract" "savedQueries")
            :: call (showQuickPick items true)
            :: call (processQuery (query q) doc)
            :: call (format ms createJson)
            :: shown host (host _ (format ms createJson)) createJson
                 (nextColumn editor),
          Some tt).
Proof.
  intros items Hp Ho _ Hcfg Hin Hpick Hr.
  destruct (find_by_query queries q Hin)
    as (before & first & after & E & Hq & Hb & Hf).
  exists before, first, after. repeat split; try assumption.
  unfold runSavedQuery, getSavedQueries.
  rewrite (getJsonObject_accepts _ _ Hp Ho).
  change (8 + fuel) with (S (S (S (5 + fuel)))).
  rewrite calls_bind_trigger, Hcfg.
  destruct queries as [|q0 rest]; [contradiction|].
  cbv beta iota. unfold selectSavedQuery.
  rewrite calls_bind_bind_trigger. unfold Lodash.map.
  change (List.map (fun q => {| label := title q; detail := query q;
                                description := "" |}) (q0 :: rest))
    with items.
  rewrite Hpick, calls_bind_ret. cbn [detail quickPick_of].
  rewrite Hf, calls_bind_trigger, Hq.
  rewrite (calls_showResult_success fuel host editor _ ms _);
    [reflexivity | now rewrite Hr | now rewrite Hr].
Qed.

(** X10.  When the engine's status is not Success, or its result is
    undefined, runSavedQuery calls after the setting, the quick pick and
    the engine only what handleError reports; the formatter is not called
    and no document is opened.  (The objects of the document
    have pairwise different member names, none written with digits only:
    JavaScript's JSON.parse then lists their members as the text has
    them.) *)
Theorem runSavedQuery_reports_the_failure editor (doc : value num)
    (queries : list SavedQuery) (q : SavedQuery)
    (host : forall T, callE num T -> T) fuel :
  let items := List.map quickPick_of queries in
  JSON.parse (document_getText editor) = Some doc ->
  instanceof_Object doc = true ->
  JSON.members_kept doc = true ->
  host _ (getConfiguration "jsonPathExtract" "savedQueries") = Some queries ->
  In q queries ->
  host _ (showQuickPick items true) = Some (quickPick_of q) ->
  status (host _ (processQuery (query q) doc)) <> Success
  \/ result (host _ (processQuery (query q) doc)) = None ->
  calls (5 + fuel) host (runSavedQuery (Some editor))
  = (call (getConfiguration "jsonPathExtract" "savedQueries")
       :: call (showQuickPick items true)
       :: call (processQuery (query q) doc)
       :: report (host _ (processQuery (query q) doc)),
     Some tt).
Proof.
  intros items Hp Ho _ Hcfg Hin Hpick Hr.
  destruct (find_by_query queries q Hin)
    as (before & first & after & E & Hq & Hb & Hf).
  unfold runSavedQuery, getSavedQueries.
  rewrite (getJsonObject_accepts _ _ Hp Ho).
  change (5 + fuel) with (S (S (S (2 + fuel)))).
  rewrite calls_bind_trigger, Hcfg.
  destruct queries as [|q0 rest]; [contradiction|].
  cbv beta iota. unfold selectSavedQuery.
  rewrite calls_bind_bind_trigger. unfold Lodash.map.
  change (List.map (fun q => {| label := title q; detail := query q;
                                description := "" |}) (q0 :: rest))
    with items.
  rewrite Hpick, calls_bind_ret. cbn [detail quickPick_of].
  rewrite Hf, calls_bind_trigger, Hq.
  rewrite (calls_showResult_failure fuel host editor _ _ Hr). reflexivity.
Qed.

(** X6.  When the saved queries have pairwise different query texts,
    selectSavedQuery returns the very query whose item was picked. *)
Theorem selectSavedQuery_exact (queries : list SavedQuery) (q : SavedQuery)
    (host : forall T, callE num T -> T) (fuel : nat) :
  NoDup (List.map query queries) ->
  In q queries ->
  host _ (showQuickPick (List.map quickPick_of queries) true)
  = Some (quickPick_of q) ->
  calls (2 + fuel) host (selectSavedQuery queries)
  = ([call (showQuickPick (List.map quickPick_of queries) true)],
     Some (Some q)).
Proof.
  intros Hnd Hin Hpick.
  rewrite calls_selectSavedQuery, Hpick. unfold selected.
  cbn [detail quickPick_of]. rewrite (find_by_query_NoDup _ q Hnd Hin).
  reflexivity.
Qed.

End CallFacts.

(** * More of the formatter: lines, and texts that read back *)

Section FormatterFacts.
Import ResultFormatter.
Context {num : Type} `{JsNumber num}.

Lemma count_nl_append a b : count_nl (a ++ b) = count_nl a + count_nl b.
Proof. induction a as [|c a IH]; [reflexivity|]. cbn. rewrite IH. lia. Qed.

Lemma count_nl_spaces n : count_nl (spaces n) = 0.
Proof. induction n; [reflexivity|]. cbn. exact IHn. Qed.

Lemma count_nl_quote_char c : count_nl (JSON.quote_char c) = 0.
Proof. destruct c as [[] [] [] [] [] [] [] []]; reflexivity. Qed.

Lemma count_nl_QuoteJSONString s : count_nl (JSON.QuoteJSONString s) = 0.
Proof.
  unfold JSON.QuoteJSONString. cbn [count_nl].
  change ((dquote =? newline)%char) with false.
  rewrite count_nl_append. cbn.
  induction s as [|c s IH]; [reflexivity|].
  cbn [JSON.quote_body]. rewrite count_nl_append, count_nl_quote_char.
  exact IH.
Qed.

Lemma count_nl_Array_join sep p ps :
  count_nl (Lodash.Array_join sep (p :: ps))
  = list_sum (List.map count_nl (p :: ps)) + List.length ps * count_nl sep.
Proof.
  revert p. induction ps as [|q ps IH]; intros p.
  - cbn. lia.
  - change (Lodash.Array_join sep (p :: q :: ps))
      with (p ++ sep ++ Lodash.Array_join sep (q :: ps)).
    rewrite !count_nl_append, IH. cbn. lia.
Qed.

Lemma count_nl_parts {A} (f : A -> string) (g : A -> nat) (l : list A) :
  Forall (fun x => count_nl (f x) = g x) l ->
  list_sum (List.map count_nl (List.map f l)) = list_sum (List.map g l).
Proof.
  induction 1 as [|x l E _ IH]; [reflexivity|].
  change (count_nl (f x) + list_sum (List.map count_nl (List.map f l))
          = g x + list_sum (List.map g l)).
  rewrite E, IH. reflexivity.
Qed.

Lemma list_sum_zero {A} (l : list A) :
  list_sum (List.map (fun _ => 0) l) = 0.
Proof. induction l; [reflexivity | exact IHl]. Qed.

Lemma count_nl_wrap open close gap indent stepback p ps :
  count_nl open = 0 -> count_nl close = 0 ->
  count_nl indent = 0 -> count_nl stepback = 0 ->
  count_nl (JSON.wrap open close gap indent stepback (p :: ps))
  = list_sum (List.map count_nl (p :: ps))
    + match gap with
      | "" => 0
      | _ => S (List.length (p :: ps))
      end.
Proof.
  intros Ho Hc Hi Hs. rewrite wrap_cons.
  rewrite !count_nl_append, count_nl_Array_join, !count_nl_append, Ho, Hc.
  unfold lead. destruct gap as [|g gap].
  - cbn [count_nl List.length].
    change (("," =? newline)%char) with false. cbv beta match. lia.
  - rewrite !count_nl_append, Hi, Hs. cbn [count_nl List.length].
    change (count_nl nl) with 1.
    change (("," =? newline)%char) with false. cbv beta match. lia.
Qed.

Lemma count_nl_wrap_map {A} (f : A -> string) (g : A -> nat)
    open close gap indent stepback x (l : list A) :
  count_nl open = 0 -> count_nl close = 0 ->
  count_nl indent = 0 -> count_nl stepback = 0 ->
  Forall (fun x => count_nl (f x) = g x) (x :: l) ->
  count_nl (JSON.wrap open close gap indent stepback (List.map f (x :: l)))
  = list_sum (List.map g (x :: l))
    + match gap with
      | "" => 0
      | _ => S (List.length (x :: l))
      end.
Proof.
  intros Ho Hc Hi Hs Hparts.
  rewrite <- (count_nl_parts f g _ Hparts).
  change (List.map f (x :: l)) with (f x :: List.map f l).
  rewrite count_nl_wrap by assumption.
  cbn [List.length]. rewrite List.length_map. reflexivity.
Qed.

Section LineBreaks.
Variable gap : string.
Hypothesis gap_one_line : count_nl gap = 0.
Hypothesis number_one_line : forall n : num, count_nl (num_toString n) = 0.

Lemma count_nl_serialize (v : value num) :
  forall indent,
    count_nl indent = 0 ->
    count_nl (JSON.SerializeJSONProperty gap indent v)
    = match gap with
      | "" => 0
      | _ => line_breaks v
      end.
Proof.
  induction v as [|b|n|s|elements IH|members IH] using value_nested_ind;
    intros indent Hi.
  - destruct gap; reflexivity.
  - destruct b, gap; reflexivity.
  - cbn [JSON.SerializeJSONProperty]. rewrite number_one_line.
    destruct gap; reflexivity.
  - cbn [JSON.SerializeJSONProperty]. rewrite count_nl_QuoteJSONString.
    destruct gap; reflexivity.
  - cbn [JSON.SerializeJSONProperty].
    assert (Hi' : count_nl (indent ++ gap) = 0)
      by (rewrite count_nl_append; lia).
    destruct elements as [|e es]; [destruct gap; reflexivity|].
    rewrite (count_nl_wrap_map _
               (fun v => match gap with "" => 0 | _ => line_breaks v end)).
    2-5: reflexivity || assumption.
    2:{ eapply Forall_impl; [|exact IH]. intros x Hx. apply Hx, Hi'. }
    destruct gap as [|g gap'].
    + rewrite list_sum_zero. reflexivity.
    + cbn [line_breaks]. apply Nat.add_comm.
  - cbn [JSON.SerializeJSONProperty].
    assert (Hi' : count_nl (indent ++ gap) = 0)
      by (rewrite count_nl_append; lia).
    destruct members as [|m ms]; [destruct gap; reflexivity|].
    rewrite (count_nl_wrap_map _
               (fun kv : string * value num =>
                  match gap with "" => 0 | _ => line_breaks (snd kv) end)).
    2-5: reflexivity || assumption.
    2:{ eapply Forall_impl; [|exact IH]. intros x Hx. cbv beta.
        rewrite count_nl_append, (Hx _ Hi').
        destruct gap; rewrite !count_nl_append, count_nl_QuoteJSONString;
          reflexivity. }
    destruct gap as [|g gap'].
    + rewrite list_sum_zero. reflexivity.
    + cbn [line_breaks]. apply Nat.add_comm.
Qed.

End LineBreaks.

Lemma Array_join_app sep (a b : list string) :
  a <> [] -> b <> [] ->
  Lodash.Array_join sep (a ++ b)
  = Lodash.Array_join sep a ++ sep ++ Lodash.Array_join sep b.
Proof.
  intros Ha Hb. induction a as [|p [|q a] IH]; [contradiction| |].
  - destruct b; [contradiction | reflexivity].
  - change (Lodash.Array_join sep ((p :: q :: a) ++ b))
      with (p ++ sep ++ Lodash.Array_join sep ((q :: a) ++ b)).
    rewrite IH by discriminate.
    change (Lodash.Array_join sep (p :: q :: a))
      with (p ++ sep ++ Lodash.Array_join sep (q :: a)).
    rewrite !append_assoc. reflexivity.
Qed.

(** X11.  In JSON mode the line breaks of the text are those of the shape
    of the matches alone (one before each element or member of a non-empty
    container, one before its closing bracket): a line break inside a
    string match or a member name is written as an escape and breaks no
    line.  (A number's text has no line break.) *)
Theorem json_mode_line_breaks :
  (forall n : num, count_nl (num_toString n) = 0) ->
  forall ms : list (value num),
    count_nl (format ms true) = line_breaks (JArray ms).
Proof.
  intros Hnum ms. unfold format, JSON.stringify.
  apply (count_nl_serialize (JSON.gap_of_space 2) eq_refl Hnum (JArray ms) "").
  reflexivity.
Qed.

(** X12.  In plain mode the text has one line break between neighbouring
    matches and, beyond those, only the line breaks of the string matches,
    which are written raw: a match that is not a string is one line,
    whatever it contains.  (A number's text has no line break.) *)
Theorem plain_mode_line_breaks :
  (forall n : num, count_nl (num_toString n) = 0) ->
  forall ms : list (value num),
    count_nl (format ms false)
    = (List.length ms - 1) + list_sum (List.map string_breaks ms).
Proof.
  intros Hnum ms. unfold format, Lodash.join, Lodash.map.
  destruct ms as [|m ms]; [reflexivity|].
  change (List.map convertResultToString (m :: ms))
    with (convertResultToString m :: List.map convertResultToString ms).
  rewrite count_nl_Array_join, List.length_map.
  change (convertResultToString m :: List.map convertResultToString ms)
    with (List.map convertResultToString (m :: ms)).
  rewrite (count_nl_parts convertResultToString string_breaks).
  - change (count_nl nl) with 1. cbn [List.length]. lia.
  - apply Forall_forall. intros v _.
    destruct v; try reflexivity; try apply Hnum;
      unfold convertResultToString, JSON.stringify;
      apply (count_nl_serialize "" eq_refl Hnum _ "" eq_refl).
Qed.

(** X13.  The plain-mode entry of a match that is not a string is a JSON
    text of that match: JSON.parse reads the match back from it. *)
Theorem plain_entry_reads_back (v : value num) :
  is_string v = false ->
  JSON.parse (convertResultToString v) = Some v.
Proof.
  intros Hv.
  destruct v as [|b|n|s|elements|members]; try discriminate Hv;
    try apply (parse_stringify _ 0).
  exact (parse_stringify (JNumber n) 0).
Qed.

(** X14.  Plain mode of two non-empty lists of matches one after the other
    is the text of the first, one line break, and the text of the
    second. *)
Theorem format_plain_app (x y : value num) (a b : list (value num)) :
  format ((x :: a) ++ y :: b) false
  = format (x :: a) false ++ nl ++ format (y :: b) false.
Proof.
  unfold format, Lodash.join, Lodash.map.
  rewrite List.map_app. apply Array_join_app; discriminate.
Qed.

(** X15.  The JSON-mode text of any matches is a document the commands
    accept: getJsonObject on an editor that holds it returns the array of
    the matches, so a query can be run on a result. *)
Theorem json_result_is_a_document (ms : list (value num)) (column : option Z) :
  JsonPathExtension.getJsonObject
    {| JsonPathExtension.document_getText := format ms true;
       JsonPathExtension.viewColumn := column |}
  = Some (JArray ms).
Proof.
  unfold JsonPathExtension.getJsonObject.
  cbn [JsonPathExtension.document_getText]. unfold format.
  rewrite parse_stringify. reflexivity.
Qed.

End FormatterFacts.

(** * The properties above on the examples *)

Section OnTheExamples.
Import JsonPathExtension Calls.

Lemma run_needs_a_json_document_witness :
  let editor := {| document_getText := "{a: 1}"; viewColumn := Some 1%Z |} in
  let host :=
    scripted_host (Some "$.a")
      {| status := Success; result := Some [JNumber 1%Z] |} in
  calls 2 host (run (Some editor) true)
  = ([call (showErrorMessage NoJsonDocumentErrorMsg)], Some tt)
  /\ calls 2 host (runSavedQuery (Some editor))
     = ([call (showErrorMessage NoJsonDocumentErrorMsg)], Some tt).
Proof.
  intros editor host.
  apply (@run_needs_a_json_document Z Z_JsNumber (Some editor) true host 0
           ZNumber_read_number).
  reflexivity.
Defined.

Lemma run_cancelled_witness :
  let host :=
    scripted_host None {| status := Success; result := Some [] |} in
  calls 2 host (run (Some sample_editor) true)
  = ([call (showInputBox EnterJsonPathPrompt true)], Some tt).
Proof.
  intros host.
  apply (run_cancelled (num := Z) sample_editor sample_document true host 0);
    reflexivity.
Defined.

Lemma run_shows_the_result_witness :
  let host :=
    scripted_host (Some "$.a")
      {| status := Success; result := Some [JNumber 1%Z] |} in
  calls 7 host (run (Some sample_editor) false)
  = ([call (showInputBox EnterJsonPathPrompt true);
      call (processQuery "$.a" sample_document);
      call (format [JNumber 1%Z] false);
      call (openTextDocument "jsonpath://json-path?1");
      call (setTextDocumentLanguage
              {| document_uri := "jsonpath://json-path?1" |} "plaintext");
      call (showTextDocument
              {| document_uri := "jsonpath://json-path?1" |} 2%Z)],
     Some tt).
Proof.
  intros host.
  apply (run_shows_the_result (num := Z) sample_editor sample_document false
           "$.a" [JNumber 1%Z] host 0); reflexivity.
Defined.

Lemma run_reports_the_failure_witness :
  let host :=
    scripted_host (Some "$.b") {| status := NoData; result := None |} in
  calls 4 host (run (Some sample_editor) true)
  = ([call (showInputBox EnterJsonPathPrompt true);
      call (processQuery "$.b" sample_document);
      call (showInformationMessage NoResultsFoundMsg)],
     Some tt).
Proof.
  intros host.
  apply (run_reports_the_failure (num := Z) sample_editor sample_document
           true "$.b" host 0); try reflexivity.
  right. reflexivity.
Defined.

Lemma selectSavedQuery_first_match_witness :
  let queries := [a_as_json; a_as_text; b_as_text] in
  let host :=
    saved_host (Some queries) (Some (quickPick_of a_as_text))
      {| status := Success; result := Some [JNumber 1%Z] |} in
  exists before first after,
    queries = (before ++ first :: after)%list
    /\ query first = query a_as_text
    /\ Forall (fun sq => query sq <> query a_as_text) before
    /\ calls 2 host (selectSavedQuery queries)
       = ([call (showQuickPick (List.map quickPick_of queries) true)],
          Some (Some first)).
Proof.
  intros queries host.
  apply (selectSavedQuery_first_match (num := Z) queries a_as_text host 0).
  - right. left. reflexivity.
  - reflexivity.
Defined.

Lemma selectSavedQuery_exact_witness :
  let queries := [a_as_json; b_as_text] in
  let host :=
    saved_host (Some queries) (Some (quickPick_of b_as_text))
      {| status := Success; result := Some [] |} in
  calls 2 host (selectSavedQuery queries)
  = ([call (showQuickPick (List.map quickPick_of queries) true)],
     Some (Some b_as_text)).
Proof.
  intros queries host.
  apply (selectSavedQuery_exact (num := Z) queries b_as_text host 0).
  - repeat constructor; cbn; intuition discriminate.
  - right. left. reflexivity.
  - reflexivity.
Defined.

Lemma runSavedQuery_without_queries_witness :
  let host :=
    saved_host (Some []) None {| status := Success; result := Some [] |} in
  calls 3 host (runSavedQuery (Some sample_editor))
  = ([call (getConfiguration "jsonPathExtract" "savedQueries");
      call (showErrorMessage NoSavedQueriesErrorMsg)],
     Some tt).
Proof.
  intros host.
  apply (runSavedQuery_without_queries (num := Z) sample_editor
           sample_document host 0); try reflexivity.
  right. reflexivity.
Defined.

Lemma runSavedQuery_without_selection_witness :
  let queries := [a_as_json; b_as_text] in
  let host :=
    saved_host (Some queries) None
      {| status := Success; result := Some [] |} in
  calls 3 host (runSavedQuery (Some sample_editor))
  = ([call (getConfiguration "jsonPathExtract" "savedQueries");
      call (showQuickPick (List.map quickPick_of queries) true)],
     Some tt).
Proof.
  intros queries host.
  apply (runSavedQuery_without_selection (num := Z) sample_editor
           sample_document a_as_json [b_as_text] host 0); reflexivity.
Defined.

Lemma runSavedQuery_shows_the_result_witness :
  let queries := [a_as_json; a_as_text; b_as_text] in
  let items := List.map quickPick_of queries in
  let host :=
    saved_host (Some queries) (Some (quickPick_of a_as_text))
      {| status := Success; result := Some [JNumber 1%Z] |} in
  exists before first after,
    queries = (before ++ first :: after)%list
    /\ query first = query a_as_text
    /\ Forall (fun sq => query sq <> query a_as_text) before
    /\ let createJson :=
         match output first with Json => true | Text => false end in
       calls 8 host (runSavedQuery (Some sample_editor))
       = (call (getConfiguration "jsonPathExtract" "savedQueries")
            :: call (showQuickPick items true)
            :: call (processQuery (query a_as_text) sample_document)
            :: call (format [JNumber 1%Z] createJson)
            :: shown host (host _ (format [JNumber 1%Z] createJson))
                 createJson (nextColumn sample_editor),
          Some tt).
Proof.
  intros queries items host.
  apply (runSavedQuery_shows_the_result (num := Z) sample_editor
           sample_document queries a_as_text [JNumber 1%Z] host 0);
    try reflexivity.
  right. left. reflexivity.
Defined.

Lemma runSavedQuery_reports_the_failure_witness :
  let queries := [a_as_json; b_as_text] in
  let host :=
    saved_host (Some queries) (Some (quickPick_of b_as_text))
      {| status := InvalidQuery; result := None |} in
  calls 5 host (runSavedQuery (Some sample_editor))
  = ([call (getConfiguration "jsonPathExtract" "savedQueries");
      call (showQuickPick (List.map quickPick_of queries) true);
      call (processQuery "$.b" sample_document);
      call (showErrorMessage InvalidJsonPathErrorMsg)],
     Some tt).
Proof.
  intros queries host.
  apply (runSavedQuery_reports_the_failure (num := Z) sample_editor
           sample_document queries b_as_text host 0); try reflexivity.
  - right. left. reflexivity.
  - left. discriminate.
Defined.

End OnTheExamples.

Section OnTheExampleTexts.
Import ResultFormatter.

Lemma count_nl_string_of_uint u : count_nl (NilZero.string_of_uint u) = 0.
Proof.
  destruct u as [|u|u|u|u|u|u|u|u|u|u]; [reflexivity|..];
    change (count_nl (NilEmpty.string_of_uint u) = 0);
    induction u; cbn; assumption || reflexivity.
Qed.

Lemma ZNumber_toString_one_line (n : Z) : count_nl (ZNumber.toString n) = 0.
Proof.
  unfold ZNumber.toString, NilZero.string_of_int.
  destruct (Z.to_int n); [|cbn [count_nl]];
    rewrite ?count_nl_string_of_uint; reflexivity.
Qed.

Lemma json_mode_line_breaks_witness :
  count_nl
    (format [JString ("two" ++ nl ++ "lines");
             JObject [("a", JArray [JNumber 1%Z; JNumber 2%Z])]] true)
  = 8.
Proof.
  apply (@json_mode_line_breaks Z Z_JsNumber ZNumber_toString_one_line
           [JString ("two" ++ nl ++ "lines");
            JObject [("a", JArray [JNumber 1%Z; JNumber 2%Z])]]).
Defined.

Lemma plain_mode_line_breaks_witness :
  count_nl
    (format [JString ("two" ++ nl ++ "lines");
             JObject [("a", JArray [JNumber 1%Z; JNumber 2%Z])]] false)
  = 2.
Proof.
  apply (@plain_mode_line_breaks Z Z_JsNumber ZNumber_toString_one_line
           [JString ("two" ++ nl ++ "lines");
            JObject [("a", JArray [JNumber 1%Z; JNumber 2%Z])]]).
Defined.

Lemma plain_entry_reads_back_witness :
  JSON.parse
    (convertResultToString (JObject [("a", JArray [JNumber 1%Z; JNull])]))
  = Some (JObject [("a", JArray [JNumber 1%Z; JNull])]).
Proof.
  apply (plain_entry_reads_back (num := Z)
           (JObject [("a", JArray [JNumber 1%Z; JNull])])).
  reflexivity.
Defined.

End OnTheExampleTexts.
